(** * LCQ protocol client: a shallow embedding and its properties

    The development follows the TypeScript sources
      - [lib/mcp/models.ts]    the error classes,
      - [lib/mcp/utils.ts]     response validation, error classification,
                               the rate-limit helpers and the retry-delay helper,
      - [config/mcp-config.ts] the static method and endpoint tables,
      - [lib/mcp/client.ts]    the [McpClient] class.

    Conventions of the embedding.
      - A JavaScript number that the code only compares, adds, subtracts or
        multiplies by an integer constant is an integer of [Z].
      - [undefined] (an absent property, an omitted argument) is [None].
      - An object used as a dictionary is a plain object, and is a [gmap]
        over its own properties. A key that names a member every object
        inherits from [Object.prototype] ([inherited]) is read differently
        by [obj[key]]; the properties of lookups are stated for the other
        keys.
      - Objects that are mutated in place live in a store indexed by
        references, so that two dictionaries can share one entry object.
      - [async] functions are run against a scripted transport; what they do
        to the outside world is recorded in a trace of events. *)

From stdpp Require Import base numbers option list strings pretty gmap fin_maps.
From Stdlib Require Import ZArith Lia QArith Qround Lqa.

Local Open Scope string_scope.
Local Open Scope list_scope.
Local Open Scope Z_scope.

Set Warnings "-register-all".

(** ** JavaScript helpers *)

(** [s.includes(needle)] *)
Fixpoint includes (needle s : string) : bool :=
  String.prefix needle s ||
  match s with
  | EmptyString => false
  | String _ rest => includes needle rest
  end.

(** Truthiness of an optional number: [undefined] and [0] are falsy. *)
Definition truthy_num (x : option Z) : bool :=
  match x with
  | Some z => negb (z =? 0)
  | None => false
  end.

(** Truthiness of an optional string: [undefined] and [''] are falsy. *)
Definition truthy_str (x : option string) : bool :=
  match x with
  | Some s => negb (String.eqb s "")
  | None => false
  end.

(** [a || b] on optional numbers and on an optional string with a literal. *)
Definition or_num (a b : option Z) : option Z :=
  if truthy_num a then a else b.

(** [a || k] for an optional number and a number [k]. *)
Definition or_const (a : option Z) (k : Z) : Z :=
  match a with
  | Some z => if z =? 0 then k else z
  | None => k
  end.

Definition or_str (a : option string) (b : string) : string :=
  match a with
  | Some s => if String.eqb s "" then b else s
  | None => b
  end.

(** [`${x}`] for an optional string. *)
Definition template (x : option string) : string :=
  match x with
  | Some s => s
  | None => "undefined"
  end.

(** [x?.includes(needle)] used as a condition. *)
Definition opt_includes (needle : string) (x : option string) : bool :=
  match x with
  | Some s => includes needle s
  | None => false
  end.

(** The names of the members that a plain object inherits from
    [Object.prototype]: [obj[key]] finds one of them when [obj] has no
    property of its own under such a key. *)
Definition Object_prototype : list string :=
  ["constructor"; "__defineGetter__"; "__defineSetter__"; "hasOwnProperty";
   "__lookupGetter__"; "__lookupSetter__"; "isPrototypeOf"; "propertyIsEnumerable";
   "toString"; "valueOf"; "__proto__"; "toLocaleString"].

Definition inherited (key : string) : bool := bool_decide (key ∈ Object_prototype).

(** The result of [parseInt]: an integer or [NaN]. *)
Inductive JsNumber :=
  | NaN
  | Num (z : Z).

(** Built-ins of the host that the code calls and that are not part of the
    repository. *)
Class Host := {
  parseInt : string -> JsNumber;
  (** [x.toString(36)] for a number [x] drawn by [Math.random()] *)
  toString36 : Q -> string
}.

(** JSON values: request parameters and result payloads. *)
Inductive Json :=
  | JNull
  | JBool (b : bool)
  | JNum (z : Z)
  | JStr (s : string)
  | JArr (l : list Json)
  | JObj (fields : list (string * Json)).

(** ** [lib/mcp/models.ts]: the error classes *)

Inductive ErrClass :=
  | Error
  | TypeError
  | SyntaxError
  | McpError
  | McpRequestError
  | McpConnectionError
  | McpTimeoutError
  | McpResponseError
  | McpRateLimitError
  | McpAuthError.

#[global] Instance ErrClass_eq_dec : EqDecision ErrClass.
Proof. solve_decision. Defined.

(** [class C extends D]: the direct superclass. *)
Definition extends (c : ErrClass) : option ErrClass :=
  match c with
  | Error => None
  | TypeError => Some Error
  | SyntaxError => Some Error
  | McpError => Some Error
  | McpRequestError => Some McpError
  | McpConnectionError => Some McpError
  | McpTimeoutError => Some McpError
  | McpResponseError => Some McpError
  | McpRateLimitError => Some McpResponseError
  | McpAuthError => Some McpResponseError
  end.

(** The prototype chain is at most four classes long. *)
Fixpoint subclass_upto (n : nat) (c d : ErrClass) : bool :=
  bool_decide (c = d) ||
  match n, extends c with
  | S n', Some p => subclass_upto n' p d
  | _, _ => false
  end.

Definition subclass : ErrClass -> ErrClass -> bool := subclass_upto 3.

(** The properties, besides [name] and [message], that the code reads from
    a thrown object. *)
Record Props := {
  status : option Z;
  statusCode : option Z;
  retryAfter : option JsNumber;
  (** [headers?.get], when it is callable *)
  headers_get : option (string -> option string)
}.

Definition no_props : Props :=
  {| status := None; statusCode := None; retryAfter := None; headers_get := None |}.

(** A thrown value: an instance of one of the error classes, whose [name]
    and [message] are strings, or any other object. *)
Inductive Thrown :=
  | Instance_ (cls : ErrClass) (nm : string) (msg : string) (props : Props)
  | Object_ (nm : option string) (msg : option string) (props : Props).

Definition instanceof (e : Thrown) (c : ErrClass) : bool :=
  match e with
  | Instance_ cls _ _ _ => subclass cls c
  | Object_ _ _ _ => false
  end.

Definition name (e : Thrown) : option string :=
  match e with
  | Instance_ _ nm _ _ => Some nm
  | Object_ nm _ _ => nm
  end.

Definition message (e : Thrown) : option string :=
  match e with
  | Instance_ _ _ msg _ => Some msg
  | Object_ _ msg _ => msg
  end.

Definition props (e : Thrown) : Props :=
  match e with
  | Instance_ _ _ _ p => p
  | Object_ _ _ p => p
  end.

(** The constructors of the classes of [models.ts]. *)
Definition new_McpError (msg : string) : Thrown :=
  Instance_ McpError "McpError" msg no_props.

Definition new_McpRequestError (msg : string) : Thrown :=
  Instance_ McpRequestError "McpRequestError" msg no_props.

Definition new_McpConnectionError (msg : string) : Thrown :=
  Instance_ McpConnectionError "McpConnectionError" msg no_props.

Definition new_McpTimeoutError (msg : string) : Thrown :=
  Instance_ McpTimeoutError "McpTimeoutError" msg no_props.

(** [constructor(message: string, statusCode: number = 0)] *)
Definition new_McpResponseError (msg : string) (code : option Z) : Thrown :=
  Instance_ McpResponseError "McpResponseError" msg
    {| status := None; statusCode := Some (default 0 code);
       retryAfter := None; headers_get := None |}.

(** [super(message, 429)] *)
Definition new_McpRateLimitError (msg : string) (after : option JsNumber) : Thrown :=
  Instance_ McpRateLimitError "McpRateLimitError" msg
    {| status := None; statusCode := Some 429;
       retryAfter := after; headers_get := None |}.

(** [super(message, 401)] *)
Definition new_McpAuthError (msg : string) : Thrown :=
  Instance_ McpAuthError "McpAuthError" msg
    {| status := None; statusCode := Some 401;
       retryAfter := None; headers_get := None |}.

(** [new Error(message)] and the two built-in errors the transport raises. *)
Definition new_Error (msg : string) : Thrown :=
  Instance_ Error "Error" msg no_props.

Definition new_TypeError (msg : string) : Thrown :=
  Instance_ TypeError "TypeError" msg no_props.

Definition new_SyntaxError (msg : string) : Thrown :=
  Instance_ SyntaxError "SyntaxError" msg no_props.

(** The error taxonomy ([McpErrorType] of [types/mcp.ts]) and the member
    each class of [models.ts] stands for. *)
Inductive McpErrorType :=
  | REQUEST
  | CONNECTION
  | TIMEOUT
  | RESPONSE
  | RATE_LIMIT
  | AUTH
  | UNKNOWN.

Definition errorType (e : Thrown) : option McpErrorType :=
  match e with
  | Instance_ McpError _ _ _ => Some UNKNOWN
  | Instance_ McpRequestError _ _ _ => Some REQUEST
  | Instance_ McpConnectionError _ _ _ => Some CONNECTION
  | Instance_ McpTimeoutError _ _ _ => Some TIMEOUT
  | Instance_ McpResponseError _ _ _ => Some RESPONSE
  | Instance_ McpRateLimitError _ _ _ => Some RATE_LIMIT
  | Instance_ McpAuthError _ _ _ => Some AUTH
  | _ => None
  end.

(** A computation that returns a value or throws. *)
Inductive Completion (A : Type) :=
  | Return (a : A)
  | Throw (e : Thrown).

Arguments Return {A} a.
Arguments Throw {A} e.

(** ** [lib/mcp/models.ts]: the response envelope ([McpResponse]) *)

Record RateLimit := {
  remaining : Z;
  reset : Z;
  limit : Z
}.

Record Metadata := {
  processingTime : option Z;
  rateLimit : option RateLimit
}.

(** The [error] field of an envelope. A body parsed from JSON may lack
    [code] or [message], which is why the code guards both with [||]. *)
Record ErrorField := {
  code : option Z;
  error_message : option string;
  data : option Json
}.

(** [result] is [None] when the property is [undefined], and [Some JNull]
    when it is [null]; [error] is [None] when the property is absent or
    falsy, which the code does not tell apart. *)
Record McpResponse := {
  result : option Json;
  error : option ErrorField;
  response_id : option string;
  metadata : option Metadata
}.

(** ** [lib/mcp/utils.ts] *)

(** [validateMethodResponse(response, methodId)]. The argument is what
    [response.json()] gave: [None] is a falsy body ([null]). *)
Definition validateMethodResponse (response : option McpResponse) (methodId : string)
  : Completion Json :=
  match response with
  | None =>
      Throw (new_McpResponseError ("Empty response from MCP method: " +:+ methodId) None)
  | Some response =>
      match error response with
      | Some err =>
          Throw (new_McpResponseError
                   ("MCP error in method " +:+ methodId +:+ ": "
                      +:+ or_str (error_message err) "Unknown error")
                   (Some (or_const (code err) 0)))
      | None =>
          match result response with
          | None =>
              Throw (new_McpResponseError
                       ("Missing result in MCP response for method: " +:+ methodId) None)
          | Some payload => Return payload
          end
      end
  end.

(** [error instanceof TypeError && error.message.includes('network')]; an
    instance always has a message. *)
Definition is_network_error (error : Thrown) : bool :=
  instanceof error TypeError && opt_includes "network" (message error).

(** The value of [error.status || error.statusCode] when it is truthy. *)
Definition http_status (error : Thrown) : option Z :=
  let status := or_num (status (props error)) (statusCode (props error)) in
  if truthy_num status then status else None.

(** [error.headers?.get?.('retry-after') ? parseInt(error.headers.get('retry-after')) : undefined] *)
Definition retry_after_hint `{Host} (error : Thrown) : option JsNumber :=
  match headers_get (props error) with
  | Some get =>
      if truthy_str (get "retry-after")
      then Some (parseInt (template (get "retry-after")))
      else None
  | None => None
  end.

(** [error.name === 'FetchError' || error.message?.includes('fetch')] *)
Definition is_fetch_error (error : Thrown) : bool :=
  bool_decide (name error = Some "FetchError") || opt_includes "fetch" (message error).

(** [error.name === 'SyntaxError' && error.message?.includes('JSON')] *)
Definition is_json_error (error : Thrown) : bool :=
  bool_decide (name error = Some "SyntaxError") && opt_includes "JSON" (message error).

Definition handleMcpError `{Host} (error : Thrown) : Thrown :=
  if instanceof error McpError then error
  else if is_network_error error then
    new_McpConnectionError
      ("Network error connecting to MCP: " +:+ template (message error))
  else if is_fetch_error error then
    new_McpConnectionError ("Failed to connect to MCP: " +:+ template (message error))
  else if is_json_error error then
    new_McpResponseError
      ("Invalid JSON response from MCP: " +:+ template (message error)) None
  else
    match http_status error with
    | Some status =>
        if (status =? 401) || (status =? 403) then
          new_McpAuthError
            ("Authentication failed: " +:+ or_str (message error) "Invalid API key")
        else if status =? 429 then
          new_McpRateLimitError
            ("MCP rate limit exceeded: " +:+ or_str (message error) "Too many requests")
            (retry_after_hint error)
        else
          new_McpResponseError
            ("MCP HTTP error " +:+ pretty status +:+ ": "
               +:+ or_str (message error) "Unknown error")
            (Some status)
    | None =>
        new_McpError ("MCP error: " +:+ or_str (message error) "Unknown error")
    end.

(** An error that none of the first four tests of [handleMcpError]
    recognises: it is classified by its status, if it has one. *)
Definition by_status (error : Thrown) : bool :=
  negb (instanceof error McpError) && negb (is_network_error error)
  && negb (is_fetch_error error) && negb (is_json_error error).

(** *** The rate-limit ledger

    A ledger is an object whose properties are method ids and whose values
    are entry objects [{count, resetTime}]. Entry objects are mutable and
    can be shared by several ledgers, so a ledger maps a method id to a
    reference and the store holds the entries. *)

Record Entry := {
  count : Z;
  resetTime : Z
}.

Abbreviation ref := positive.
Abbreviation Ledger := (gmap string ref).
Abbreviation Store := (gmap ref Entry).

(** [rateState[methodId]], read in a store, for a method id that is not
    [inherited] *)
Definition entry (rateState : Ledger) (st : Store) (methodId : string) : option Entry :=
  rateState !! methodId ≫= λ r, st !! r.

(** A fresh object gets a reference that the store does not use yet. *)
Definition alloc (e : Entry) (st : Store) : ref * Store :=
  let r := fresh (dom st) in (r, <[r := e]> st).

(** [checkRateLimit(methodId, rateState)], at time [now = Date.now()], for
    a method id that is not [inherited] *)
Definition checkRateLimit (now : Z) (methodId : string) (rateState : Ledger) (st : Store)
  : bool :=
  match entry rateState st methodId with
  | None => true
  | Some method =>
      if now >? resetTime method then true
      else count method <? 60
  end.

(** [updateRateLimit(methodId, rateState, response)], at time
    [now = Date.now()], for a method id that is not [inherited] (for the
    others, [newState[methodId]] finds or changes the prototype).
    [{ ...rateState }] is a new ledger object with the
    references of [rateState]: it copies the references, not the entries
    they point to. An assignment to [newState[methodId]] changes the new
    ledger only; an assignment to [newState[methodId].count] changes the
    entry object in the store. *)
Definition updateRateLimit (now : Z) (methodId : string) (rateState : Ledger)
    (response : McpResponse) (st : Store) : Ledger * Store :=
  let newState := rateState in
  match metadata response ≫= rateLimit with
  | Some rl =>
      let '(r, st) := alloc {| count := limit rl - remaining rl;
                               resetTime := reset rl * 1000 |} st in
      (<[methodId := r]> newState, st)
  | None =>
      match newState !! methodId with
      | None =>
          let '(r, st) := alloc {| count := 1; resetTime := now + 60000 |} st in
          (<[methodId := r]> newState, st)
      | Some r =>
          (newState,
           alter (λ e, {| count := count e + 1; resetTime := resetTime e |}) r st)
      end
  end.

(** *** The retry-delay helper

    [random] is the number that [Math.random()] draws, a rational of the
    interval from 0 (included) to 1 (excluded); the arithmetic on fractions
    is exact. *)

(** [delay * 0.2 * (Math.random() * 2 - 1)] *)
Definition jitter (delay : Z) (random : Q) : Q :=
  (inject_Z delay * (2 # 10) * (random * 2 - 1))%Q.

(** [Math.max(0, Math.floor(delay + jitter))] *)
Definition jittered (delay : Z) (random : Q) : Z :=
  Z.max 0 (Qfloor (inject_Z delay + jitter delay random)).

(** [getRetryDelay(attempt, maxAttempts, baseDelay = 1000, maxDelay = 30000)] *)
Definition getRetryDelay (random : Q) (attempt maxAttempts : Z)
    (baseDelay maxDelay : option Z) : option Z :=
  let baseDelay := default 1000 baseDelay in
  let maxDelay := default 30000 maxDelay in
  if attempt >=? maxAttempts then None
  else
    let delay := Z.min (baseDelay * 2 ^ attempt) maxDelay in
    Some (jittered delay random).

(** ** [config/mcp-config.ts]: the static tables *)

Record McpEndpoint := {
  endpoint_id : string;
  endpoint_name : string;
  url : string;
  endpoint_description : string;
  isDefault : option bool
}.

Record McpMethod := {
  method_id : string;
  method_name : string;
  method_description : string;
  requiresApiKey : bool;
  rateLimitPerMinute : Z
}.

Record McpConfig := {
  endpoints : list McpEndpoint;
  methods : list McpMethod;
  defaultTimeout : Z;
  retryAttempts : Z;
  overallRateLimitPerMinute : Z
}.

Definition lcq_default : McpEndpoint :=
  {| endpoint_id := "lcq-default"; endpoint_name := "LCQ MCP (Default)";
     url := "https://mcp.lcq.gg/v1";
     endpoint_description := "Default MCP endpoint provided by LCQ";
     isDefault := Some true |}.

Definition the_endpoints : list McpEndpoint :=
  [ lcq_default;
    {| endpoint_id := "local-development"; endpoint_name := "Local Development";
       url := "http://localhost:3001/mcp";
       endpoint_description := "Local MCP server for development";
       isDefault := None |};
    {| endpoint_id := "custom"; endpoint_name := "Custom Endpoint";
       url := "";
       endpoint_description := "Custom MCP endpoint (set in settings)";
       isDefault := None |} ].

Definition the_methods : list McpMethod :=
  [ {| method_id := "getAccountInfo"; method_name := "Get Account Info";
       method_description := "Fetch account information from Solana";
       requiresApiKey := true; rateLimitPerMinute := 60 |};
    {| method_id := "getBalance"; method_name := "Get Balance";
       method_description := "Fetch SOL balance for an account";
       requiresApiKey := true; rateLimitPerMinute := 120 |};
    {| method_id := "getTransaction"; method_name := "Get Transaction";
       method_description := "Fetch transaction details by signature";
       requiresApiKey := true; rateLimitPerMinute := 60 |};
    {| method_id := "getTokenAccounts"; method_name := "Get Token Accounts";
       method_description := "Fetch token accounts for an owner";
       requiresApiKey := true; rateLimitPerMinute := 40 |};
    {| method_id := "getTokenBalance"; method_name := "Get Token Balance";
       method_description := "Fetch token balance for a specific token account";
       requiresApiKey := true; rateLimitPerMinute := 120 |};
    {| method_id := "getProgramAccounts"; method_name := "Get Program Accounts";
       method_description := "Fetch accounts owned by a program";
       requiresApiKey := true; rateLimitPerMinute := 20 |};
    {| method_id := "getSignaturesForAddress";
       method_name := "Get Signatures For Address";
       method_description := "Fetch transaction signatures for an address";
       requiresApiKey := true; rateLimitPerMinute := 30 |};
    {| method_id := "getClusterNodes"; method_name := "Get Cluster Nodes";
       method_description := "Fetch list of nodes in the cluster";
       requiresApiKey := true; rateLimitPerMinute := 10 |};
    {| method_id := "getBlockTime"; method_name := "Get Block Time";
       method_description := "Fetch estimated production time of a block";
       requiresApiKey := true; rateLimitPerMinute := 30 |};
    {| method_id := "getSlot"; method_name := "Get Slot";
       method_description := "Fetch current slot in ledger";
       requiresApiKey := true; rateLimitPerMinute := 60 |};
    {| method_id := "getHealth"; method_name := "Get Health";
       method_description := "Check RPC health status";
       requiresApiKey := false; rateLimitPerMinute := 120 |};
    {| method_id := "getVersion"; method_name := "Get Version";
       method_description := "Fetch node version information";
       requiresApiKey := false; rateLimitPerMinute := 30 |} ].

Definition mcpConfig : McpConfig :=
  {| endpoints := the_endpoints;
     methods := the_methods;
     defaultTimeout := 30000;
     retryAttempts := 3;
     overallRateLimitPerMinute := 180 |}.

Definition getEndpoint (id : string) : option McpEndpoint :=
  List.find (λ endpoint, String.eqb (endpoint_id endpoint) id) (endpoints mcpConfig).

(** [find(endpoint => endpoint.isDefault) || mcpConfig.endpoints[0]] *)
Definition getDefaultEndpoint : McpEndpoint :=
  match List.find (λ endpoint, default false (isDefault endpoint)) (endpoints mcpConfig) with
  | Some defaultEndpoint => defaultEndpoint
  | None => List.hd lcq_default (endpoints mcpConfig)
  end.

Definition getMethod (id : string) : option McpMethod :=
  List.find (λ method, String.eqb (method_id method) id) (methods mcpConfig).

Definition createMethodUrl (endpointUrl methodId : string) : string :=
  endpointUrl +:+ "/rpc/" +:+ methodId.

(** ** [lib/mcp/utils.ts]: the request envelope *)

Record RequestMetadata := {
  meta_apiKey : string;
  timestamp : Z;
  clientId : option string;
  clientVersion : option string
}.

Record McpRequest := {
  params : Json;
  request_id : string;
  request_metadata : RequestMetadata
}.

(** What [fetch] resolves with. *)
Record HttpResponse := {
  response_status : Z;
  text : string;
  (** [response.json()]: the parsed body, or the message of the
      [SyntaxError] it rejects with *)
  json : string + option McpResponse
}.

(** How the race between the request and the timer settles: the timer
    fires first, [fetch] rejects with a [TypeError], or [fetch] resolves. *)
Inductive NetOutcome :=
  | TimedOut
  | FetchRejected (msg : string)
  | Responded (response : HttpResponse).

(** What a call reads from its surroundings: the clock, the random number
    generator and the network. [transport k] is what the race of the
    [k]-th attempt (counted from 1) settles with. *)
Record Env := {
  now : Z;
  random : Q;
  transport : Z -> NetOutcome
}.

(** [`lcq-${Date.now()}-${Math.random().toString(36).substring(2, 15)}`] *)
Definition generateRequestId `{Host} (env : Env) : string :=
  "lcq-" +:+ pretty (now env) +:+ "-" +:+ String.substring 2 13 (toString36 (random env)).

Definition formatMcpRequest `{Host} (env : Env) (params : Json) (apiKey : string)
    (clientId clientVersion : option string) : McpRequest :=
  {| params := params;
     request_id := generateRequestId env;
     request_metadata :=
       {| meta_apiKey := apiKey;
          timestamp := now env;
          clientId := if truthy_str clientId then clientId else None;
          clientVersion := if truthy_str clientVersion then clientVersion else None |} |}.

(** ** [lib/mcp/client.ts]: the class [McpClient] *)

Record Options := {
  timeout : Z;
  max_attempts : Z;  (* [options.retryAttempts] *)
  debug : bool
}.

Record McpClient := {
  apiKey : string;
  endpointId : string;
  options : Options
}.

(** The optional third argument of the constructor. *)
Record OptionsArg := {
  arg_timeout : option Z;
  arg_retryAttempts : option Z;
  arg_debug : option bool
}.

Definition new_McpClient (apiKey : string) (endpointId : option string)
    (options : option OptionsArg) : McpClient :=
  {| apiKey := apiKey;
     endpointId := or_str endpointId (endpoint_id getDefaultEndpoint);
     options :=
       {| timeout := or_const (options ≫= arg_timeout) (defaultTimeout mcpConfig);
          max_attempts := or_const (options ≫= arg_retryAttempts) (retryAttempts mcpConfig);
          debug := default false (options ≫= arg_debug) |} |}.

(** What a call does to the outside world, in order. *)
Inductive Event :=
  | Debug_request (attempt total : Z) (methodId url : string) (request : McpRequest)
  | Fetch (url authorization : string) (body : McpRequest)
  | Debug_response (validated : Json)
  | Sleep (ms : Z).

(** The part of the program state a call could touch: the store of entry
    objects and the trace of events so far (latest last). *)
Record State := {
  store : Store;
  trace : list Event
}.

Definition emit (ev : Event) (s : State) : State :=
  {| store := store s; trace := trace s ++ [ev] |}.

(** [response.ok] *)
Definition ok (response : HttpResponse) : bool :=
  (200 <=? response_status response) && (response_status response <=? 299).

(** The error the timeout promise rejects with. *)
Definition timeout_error (c : McpClient) : Thrown :=
  new_McpTimeoutError
    ("MCP request timed out after " +:+ pretty (timeout (options c)) +:+ "ms").

(** [executeWithTimeout(url, request)] at attempt [k]: the request is sent
    and the race settles as the transport says. *)
Definition executeWithTimeout (c : McpClient) (env : Env) (k : Z)
    (url : string) (request : McpRequest) (s : State)
  : Completion (option McpResponse) * State :=
  let s := emit (Fetch url ("Bearer " +:+ apiKey c) request) s in
  match transport env k with
  | TimedOut => (Throw (timeout_error c), s)
  | FetchRejected msg => (Throw (new_TypeError msg), s)
  | Responded response =>
      if negb (ok response) then
        (Throw (new_McpResponseError
                  ("MCP responded with status " +:+ pretty (response_status response)
                     +:+ ": " +:+ text response)
                  (Some (response_status response))),
         s)
      else
        match json response with
        | inl msg => (Throw (new_SyntaxError msg), s)
        | inr body => (Return body, s)
        end
  end.

Definition retryableCodes : list Z := [408; 429; 500; 502; 503; 504].

Definition isRetryableError (error : Thrown) : bool :=
  if is_network_error error then true
  else if instanceof error McpTimeoutError then true
  else if instanceof error McpResponseError then
    match statusCode (props error) with
    | Some c => bool_decide (c ∈ retryableCodes)
    | None => false
    end
  else false.

(** [Math.min(1000 * Math.pow(2, attempt - 1), 10000)] *)
Definition backoffMs (attempt : Z) : Z :=
  Z.min (1000 * 2 ^ (attempt - 1)) 10000.

(** What an attempt (the body of the [try]) does. *)
Definition try_attempt (c : McpClient) (env : Env) (methodId url : string)
    (request : McpRequest) (attempt : Z) (s : State) : Completion Json * State :=
  let s := if debug (options c)
           then emit (Debug_request attempt (max_attempts (options c)) methodId url request) s
           else s in
  match executeWithTimeout c env attempt url request s with
  | (Throw e, s) => (Throw e, s)
  | (Return response, s) =>
      match validateMethodResponse response methodId with
      | Throw e => (Throw e, s)
      | Return validatedResponse =>
          let s := if debug (options c)
                   then emit (Debug_response validatedResponse) s else s in
          (Return validatedResponse, s)
      end
  end.

(** The [while] loop of [execute], by the number of iterations it may still
    run: [None] when they do not suffice. *)
Fixpoint execute_loop `{Host} (fuel : nat) (c : McpClient) (env : Env)
    (methodId url : string) (request : McpRequest)
    (attempt : Z) (lastError : option Thrown) (s : State)
  : option (Completion Json * State) :=
  let fail lastError s :=
    Some (Throw (handleMcpError (default (new_Error "Unknown MCP error") lastError)), s) in
  if attempt <? max_attempts (options c) then
    match fuel with
    | O => None
    | S fuel =>
        let attempt := attempt + 1 in
        match try_attempt c env methodId url request attempt s with
        | (Return validatedResponse, s) => Some (Return validatedResponse, s)
        | (Throw error, s) =>
            let lastError := Some error in
            if negb (isRetryableError error) || (attempt >=? max_attempts (options c))
            then fail lastError s
            else
              let s := emit (Sleep (backoffMs attempt)) s in
              execute_loop fuel c env methodId url request attempt lastError s
        end
    end
  else fail lastError s.

(** [execute(methodId, params)] *)
Definition execute `{Host} (c : McpClient) (env : Env) (methodId : string) (params : Json)
    (s : State) : option (Completion Json * State) :=
  match getMethod methodId with
  | None => Some (Throw (new_McpRequestError ("Unknown MCP method: " +:+ methodId)), s)
  | Some method =>
      let endpoint := default getDefaultEndpoint (getEndpoint (endpointId c)) in
      let url := createMethodUrl (url endpoint) methodId in
      let request := formatMcpRequest env params (apiKey c) None None in
      execute_loop (Z.to_nat (max_attempts (options c))) c env methodId url request 0 None s
  end.

(** [setEndpoint(endpointId)] and [setApiKey(apiKey)] *)
Definition setEndpoint (c : McpClient) (endpointId : string) : Completion McpClient :=
  match getEndpoint endpointId with
  | None => Throw (new_Error ("Unknown MCP endpoint: " +:+ endpointId))
  | Some _ =>
      Return {| apiKey := apiKey c; endpointId := endpointId; options := options c |}
  end.

Definition setApiKey (c : McpClient) (apiKey : string) : McpClient :=
  {| apiKey := apiKey; endpointId := endpointId c; options := options c |}.

(** *** The convenience methods of the class *)

Inductive Encoding :=
  | base64
  | base58
  | jsonParsed.

Definition encoding_string (e : Encoding) : string :=
  match e with
  | base64 => "base64"
  | base58 => "base58"
  | jsonParsed => "jsonParsed"
  end.

Section Wrappers.
Context `{Host} (c : McpClient) (env : Env).

Definition getNetworkStatus (s : State) :=
  execute c env "getHealth" (JObj []) s.

Definition getClusterStatus (cluster : string) (s : State) :=
  execute c env "getClusterNodes" (JObj [("cluster", JStr cluster)]) s.

Definition getAccountInfo (address : string) (encoding : option Encoding) (s : State) :=
  let encoding := default jsonParsed encoding in
  execute c env "getAccountInfo"
    (JObj [("address", JStr address); ("encoding", JStr (encoding_string encoding))]) s.

Definition getProgramData (programId : string) (encoding : option Encoding) (s : State) :=
  let encoding := default jsonParsed encoding in
  execute c env "getAccountInfo"
    (JObj [("address", JStr programId); ("encoding", JStr (encoding_string encoding))]) s.

Definition getTransaction (signature : string) (s : State) :=
  execute c env "getTransaction" (JObj [("signature", JStr signature)]) s.

Definition getTokenAccounts (owner : string) (s : State) :=
  execute c env "getTokenAccounts" (JObj [("owner", JStr owner)]) s.

Definition getSignaturesForAddress (address : string) (limit : option Z) (s : State) :=
  let limit := default 10 limit in
  execute c env "getSignaturesForAddress"
    (JObj [("address", JStr address); ("limit", JNum limit)]) s.

Definition getVersion (s : State) :=
  execute c env "getVersion" (JObj []) s.

(** The calls a user of the class can make besides [execute],
    [setEndpoint] and [setApiKey]: one constructor for each remaining
    public method of the class, with its arguments. *)
Inductive Wrapper :=
  | call_getNetworkStatus
  | call_getClusterStatus (cluster : string)
  | call_getAccountInfo (address : string) (encoding : option Encoding)
  | call_getProgramData (programId : string) (encoding : option Encoding)
  | call_getTransaction (signature : string)
  | call_getTokenAccounts (owner : string)
  | call_getSignaturesForAddress (address : string) (limit : option Z)
  | call_getVersion.

Definition wrapper_name (w : Wrapper) : string :=
  match w with
  | call_getNetworkStatus => "getNetworkStatus"
  | call_getClusterStatus _ => "getClusterStatus"
  | call_getAccountInfo _ _ => "getAccountInfo"
  | call_getProgramData _ _ => "getProgramData"
  | call_getTransaction _ => "getTransaction"
  | call_getTokenAccounts _ => "getTokenAccounts"
  | call_getSignaturesForAddress _ _ => "getSignaturesForAddress"
  | call_getVersion => "getVersion"
  end.

Definition invoke (w : Wrapper) (s : State) : option (Completion Json * State) :=
  match w with
  | call_getNetworkStatus => getNetworkStatus s
  | call_getClusterStatus cluster => getClusterStatus cluster s
  | call_getAccountInfo address encoding => getAccountInfo address encoding s
  | call_getProgramData programId encoding => getProgramData programId encoding s
  | call_getTransaction signature => getTransaction signature s
  | call_getTokenAccounts owner => getTokenAccounts owner s
  | call_getSignaturesForAddress address limit => getSignaturesForAddress address limit s
  | call_getVersion => getVersion s
  end.
End Wrappers.

(** ** Instances used to run the definitions on examples *)

(** A host whose [parseInt] reads a run of decimal digits. *)
Fixpoint digits (s : string) (acc : option Z) : option Z :=
  match s with
  | String a rest =>
      match Ascii.is_nat a with
      | Some d => digits rest (Some (10 * default 0 acc + Z.of_nat d))
      | None => acc
      end
  | EmptyString => acc
  end.

Definition demo_host : Host :=
  {| parseInt := λ s, match digits s None with Some z => Num z | None => NaN end;
     toString36 := λ _, "0.k3x9q2m7p1z5" |}.

Definition s0 : State := {| store := ∅; trace := [] |}.


(** A gateway answer with status 403. *)
Definition forbidden : Thrown :=
  Object_ None (Some "key revoked")
    {| status := Some 403; statusCode := None; retryAfter := None; headers_get := None |}.

(** A ledger with one entry for [getHealth], and two envelopes: one
    without metadata and one with a rate-limit snapshot. *)
Definition ledger1 : Ledger := {[ "getHealth" := 1%positive ]}.

Definition store1 : Store := {[ 1%positive := {| count := 1; resetTime := 5000 |} ]}.

Definition plain_response : McpResponse :=
  {| result := Some (JStr "ok"); error := None;
     response_id := Some "lcq-1"; metadata := None |}.

Definition metered_response : McpResponse :=
  {| result := Some (JStr "ok"); error := None;
     response_id := Some "lcq-2";
     metadata := Some {| processingTime := None;
                         rateLimit := Some {| remaining := 5; reset := 100; limit := 60 |} |} |}.

(** ** Observations on a trace *)

Definition is_fetch (ev : Event) : bool :=
  match ev with
  | Fetch _ _ _ => true
  | _ => false
  end.

(** The number of network attempts. *)
Definition fetches (t : list Event) : nat := length (List.filter is_fetch t).

(** The sleeps, in order. *)
Definition sleeps (t : list Event) : list Z :=
  omap (λ ev, match ev with Sleep ms => Some ms | _ => None end) t.

(** A ledger is well formed in a store that holds every entry it refers to. *)
Definition wf (rateState : Ledger) (st : Store) : Prop :=
  ∀ methodId r, rateState !! methodId = Some r → is_Some (st !! r).

(** The outcome and the trace of a run. *)
Definition run_result (run : option (Completion Json * State)) : option (Completion Json) :=
  fst <$> run.

Definition run_trace (run : option (Completion Json * State)) : list Event :=
  default [] (trace ∘ snd <$> run).

Definition run_store (run : option (Completion Json * State)) : Store :=
  default ∅ (store ∘ snd <$> run).

(** Transports and clients for the examples: one that always times out,
    and one that answers 429 to the first attempt and then 200 with an
    envelope that carries a rate-limit snapshot. *)
Definition env_timeout (random : Q) : Env :=
  {| now := 1700000000000; random := random; transport := λ _, TimedOut |}.

Definition env_429_then_200 (body : McpResponse) : Env :=
  {| now := 1700000000000; random := 0;
     transport := λ k,
       if k =? 1
       then Responded {| response_status := 429; text := "Too Many Requests";
                         json := inl "Unexpected token T in JSON at position 0" |}
       else Responded {| response_status := 200; text := "";
                         json := inr (Some body) |} |}.

Definition env_404 : Env :=
  {| now := 1700000000000; random := 0;
     transport := λ _, Responded {| response_status := 404; text := "Not Found";
                                    json := inl "Unexpected token N in JSON at position 0" |} |}.



Definition client_with_attempts (n : Z) : McpClient :=
  new_McpClient "key" None
    (Some {| arg_timeout := None; arg_retryAttempts := Some n; arg_debug := None |}).

(** ** Further observations and harnesses *)

(** The events that [console.debug] writes. *)
Definition is_debug (ev : Event) : bool :=
  match ev with
  | Debug_request _ _ _ _ _ => true
  | Debug_response _ => true
  | _ => false
  end.

Definition without_debug (t : list Event) : list Event :=
  List.filter (λ ev, negb (is_debug ev)) t.

(** The client [c] had it been made with [debug] set as given. *)
Definition with_debug (c : McpClient) (d : bool) : McpClient :=
  {| apiKey := apiKey c;
     endpointId := endpointId c;
     options := {| timeout := timeout (options c);
                   max_attempts := max_attempts (options c);
                   debug := d |} |}.

(** A caller that records one call after the other in the ledger it holds:
    [rateState = updateRateLimit(methodId, rateState, response)] at each of
    the given times. *)
Fixpoint updateRateLimit_each (times : list Z) (methodId : string) (rateState : Ledger)
    (response : McpResponse) (st : Store) : Ledger * Store :=
  match times with
  | [] => (rateState, st)
  | now :: times =>
      let '(rateState, st) := updateRateLimit now methodId rateState response st in
      updateRateLimit_each times methodId rateState response st
  end.

(** No two method ids of the ledger share an entry object. *)
Definition separate (rateState : Ledger) : Prop :=
  ∀ m1 m2 r, rateState !! m1 = Some r → rateState !! m2 = Some r → m1 = m2.

(** The url, the authorization header and the request that an event
    carries, if it carries any, are the given ones. *)
Definition carries (url authorization : string) (request : McpRequest) (ev : Event) : Prop :=
  match ev with
  | Fetch u a b => u = url ∧ a = authorization ∧ b = request
  | Debug_request _ _ _ u b => u = url ∧ b = request
  | _ => True
  end.

(** The url that [execute] computes for a method. *)
Definition method_url (c : McpClient) (methodId : string) : string :=
  createMethodUrl (url (default getDefaultEndpoint (getEndpoint (endpointId c)))) methodId.

(** A transport that answers every attempt with the given status and
    text, and a body that is not JSON. *)
Definition env_status (st : Z) (body : string) : Env :=
  {| now := 1700000000000; random := 0;
     transport := λ _, Responded {| response_status := st; text := body;
                                    json := inl "Unexpected token in JSON at position 0" |} |}.

(** A ledger with entries for two methods. *)
Definition ledger2 : Ledger := <[ "getVersion" := 2%positive ]> ledger1.

Definition store2 : Store :=
  <[ 2%positive := {| count := 7; resetTime := 9000 |} ]> store1.

(** An envelope whose snapshot grants 120 calls, of which 50 remain. *)
Definition granted_response : McpResponse :=
  {| result := Some JNull; error := None; response_id := None;
     metadata := Some {| processingTime := None;
                         rateLimit := Some {| remaining := 50; reset := 100; limit := 120 |} |} |}.

(** ** Callers of the client

    [lib/solana]: the methods of [AccountUtils] and [ProgramUtils] that call
    [execute] themselves. *)

(** Built-ins and libraries that these callers use. *)
Class Engine := {
  (** [new PublicKey(address)] returns (it throws otherwise) *)
  isPublicKey : string → bool;
  (** the message of the [TypeError] for reading a property of [null] *)
  cannot_read : string → string
}.

(** [j[key]] for a value that is not [null], and a key that is not a
    built-in property of strings and arrays. An object has each key once. *)
Definition property (key : string) (j : Json) : option Json :=
  match j with
  | JObj fields => snd <$> List.find (λ kv, String.eqb kv.1 key) fields
  | _ => None
  end.

(** [j.key] *)
Definition read `{Engine} (key : string) (j : Json) : Completion (option Json) :=
  match j with
  | JNull => Throw (new_TypeError (cannot_read key))
  | _ => Return (property key j)
  end.

(** [AccountUtils.getBalance(address)] *)
Definition AccountUtils_getBalance `{Host} `{Engine} (mcpClient : McpClient) (env : Env)
    (address : string) (s : State) : option (Completion (option Json) * State) :=
  if negb (isPublicKey address) then
    Some (Throw (new_Error ("Invalid Solana address: " +:+ address)), s)
  else
    match execute mcpClient env "getBalance" (JObj [("address", JStr address)]) s with
    | Some (Return result, s) => Some (read "value" result, s)
    | Some (Throw e, s) => Some (Throw e, s)
    | None => None
    end.

(** [ProgramUtils.getProgramIdl(programId)] *)
Definition ProgramUtils_getProgramIdl `{Host} `{Engine} (mcpClient : McpClient) (env : Env)
    (programId : string) (s : State) : option (Completion Json * State) :=
  if negb (isPublicKey programId) then
    Some (Throw (new_Error ("Invalid program ID: " +:+ programId)), s)
  else
    match execute mcpClient env "getProgramIdl" (JObj [("programId", JStr programId)]) s with
    | Some (Return result, s) => Some (Return result, s)
    | Some (Throw _, s) => Some (Return JNull, s)
    | None => None
    end.

(** [AccountUtils.getExplorerUrl(address, network = 'mainnet-beta')] and
    [ProgramUtils.getExplorerUrl(programId, network = 'mainnet-beta')] *)
Definition AccountUtils_getExplorerUrl `{Engine} (address : string) (network : option string)
  : Completion string :=
  let network := default "mainnet-beta" network in
  if negb (isPublicKey address) then
    Throw (new_Error ("Invalid Solana address: " +:+ address))
  else
    let baseUrl :=
      if String.eqb network "mainnet-beta"
      then "https://explorer.solana.com/address/"
      else "https://explorer.solana.com/address/" +:+ address +:+ "?cluster=" +:+ network in
    Return (baseUrl +:+ "/" +:+ address).

Definition ProgramUtils_getExplorerUrl `{Engine} (programId : string) (network : option string)
  : Completion string :=
  let network := default "mainnet-beta" network in
  if negb (isPublicKey programId) then
    Throw (new_Error ("Invalid program ID: " +:+ programId))
  else
    let baseUrl := "https://explorer.solana.com" in
    let path := "/address/" +:+ programId in
    let query :=
      if negb (String.eqb network "mainnet-beta") then "?cluster=" +:+ network else "" in
    Return (baseUrl +:+ path +:+ query).

(** An engine for the examples: a public key is a string of 32 to 44
    characters. *)
Definition demo_engine : Engine :=
  {| isPublicKey := λ a, (32 <=? String.length a)%nat && (String.length a <=? 44)%nat;
     cannot_read := λ key, "Cannot read properties of null (reading '" +:+ key +:+ "')" |}.

(** ** [config/agent-config.ts] *)

Inductive AgentType :=
  | transaction_optimizer
  | program_deployment
  | account_analyzer
  | smart_contract_auditor
  | data_scraper.

#[global] Instance AgentType_eq_dec : EqDecision AgentType.
Proof. solve_decision. Defined.

(** The string that the type is at run time. *)
Definition agent_type_string (t : AgentType) : string :=
  match t with
  | transaction_optimizer => "transaction-optimizer"
  | program_deployment => "program-deployment"
  | account_analyzer => "account-analyzer"
  | smart_contract_auditor => "smart-contract-auditor"
  | data_scraper => "data-scraper"
  end.

Record AgentCapability := {
  capability_id : string;
  capability_name : string;
  capability_description : string;
  requiresMcp : bool;
  defaultEnabled : bool
}.

(** A [Record<string, any>] of settings, options or state. *)
Abbreviation Settings := (gmap string Json).

Record AgentTypeConfig := {
  config_id : AgentType;
  config_name : string;
  config_description : string;
  config_capabilities : list AgentCapability;
  defaultSettings : Settings;
  icon : string
}.

Definition capabilities_transaction_optimizer : list AgentCapability :=
  [
    {| capability_id := "fee-optimization";
       capability_name := "Fee Optimization";
       capability_description :=
         "Analyze network congestion and recommend optimal fees";
       requiresMcp := true; defaultEnabled := true |};
    {| capability_id := "timing-optimization";
       capability_name := "Timing Optimization";
       capability_description :=
         "Recommend optimal times to send transactions";
       requiresMcp := true; defaultEnabled := true |};
    {| capability_id := "batch-optimization";
       capability_name := "Batch Optimization";
       capability_description :=
         "Optimize multiple transactions by batching instructions";
       requiresMcp := true; defaultEnabled := true |};
    {| capability_id := "historical-analysis";
       capability_name := "Historical Analysis";
       capability_description :=
         "Analyze past fee patterns to predict future trends";
       requiresMcp := true; defaultEnabled := true |}
  ].

Definition capabilities_program_deployment : list AgentCapability :=
  [
    {| capability_id := "deployment-assistance";
       capability_name := "Deployment Assistance";
       capability_description :=
         "Guide through program deployment process";
       requiresMcp := true; defaultEnabled := true |};
    {| capability_id := "environment-management";
       capability_name := "Environment Management";
       capability_description :=
         "Manage deployments across devnet, testnet, and mainnet";
       requiresMcp := true; defaultEnabled := true |};
    {| capability_id := "upgrade-management";
       capability_name := "Upgrade Management";
       capability_description :=
         "Assist with program upgrades and migrations";
       requiresMcp := true; defaultEnabled := true |};
    {| capability_id := "code-verification";
       capability_name := "Code Verification";
       capability_description :=
         "Verify deployed program matches local code";
       requiresMcp := true; defaultEnabled := false |}
  ].

Definition capabilities_account_analyzer : list AgentCapability :=
  [
    {| capability_id := "balance-analysis";
       capability_name := "Balance Analysis";
       capability_description :=
         "Analyze SOL and token balances";
       requiresMcp := true; defaultEnabled := true |};
    {| capability_id := "transaction-history";
       capability_name := "Transaction History";
       capability_description :=
         "Review and analyze transaction history";
       requiresMcp := true; defaultEnabled := true |};
    {| capability_id := "token-holdings";
       capability_name := "Token Holdings";
       capability_description :=
         "Analyze SPL token holdings and valuations";
       requiresMcp := true; defaultEnabled := true |};
    {| capability_id := "program-interactions";
       capability_name := "Program Interactions";
       capability_description :=
         "Review program interactions and contracts";
       requiresMcp := true; defaultEnabled := true |}
  ].

Definition capabilities_smart_contract_auditor : list AgentCapability :=
  [
    {| capability_id := "vulnerability-detection";
       capability_name := "Vulnerability Detection";
       capability_description :=
         "Identify common vulnerabilities in Solana programs";
       requiresMcp := true; defaultEnabled := true |};
    {| capability_id := "code-optimization";
       capability_name := "Code Optimization";
       capability_description :=
         "Recommend optimizations for compute units and efficiency";
       requiresMcp := true; defaultEnabled := true |};
    {| capability_id := "security-best-practices";
       capability_name := "Security Best Practices";
       capability_description :=
         "Check adherence to security best practices";
       requiresMcp := true; defaultEnabled := true |};
    {| capability_id := "audit-report-generation";
       capability_name := "Audit Report Generation";
       capability_description :=
         "Generate detailed audit reports with findings and recommendations";
       requiresMcp := true; defaultEnabled := true |}
  ].

Definition capabilities_data_scraper : list AgentCapability :=
  [
    {| capability_id := "transaction-scraping";
       capability_name := "Transaction Scraping";
       capability_description :=
         "Collect and analyze transaction data";
       requiresMcp := true; defaultEnabled := true |};
    {| capability_id := "token-transfer-analysis";
       capability_name := "Token Transfer Analysis";
       capability_description :=
         "Track and analyze token transfers";
       requiresMcp := true; defaultEnabled := true |};
    {| capability_id := "program-activity-monitoring";
       capability_name := "Program Activity Monitoring";
       capability_description :=
         "Monitor activity for specific programs";
       requiresMcp := true; defaultEnabled := true |};
    {| capability_id := "market-data-collection";
       capability_name := "Market Data Collection";
       capability_description :=
         "Collect and analyze market data";
       requiresMcp := true; defaultEnabled := true |};
    {| capability_id := "report-generation";
       capability_name := "Report Generation";
       capability_description :=
         "Generate CSV and JSON reports of collected data";
       requiresMcp := false; defaultEnabled := true |}
  ].

Definition capabilities (t : AgentType) : list AgentCapability :=
  match t with
  | transaction_optimizer => capabilities_transaction_optimizer
  | program_deployment => capabilities_program_deployment
  | account_analyzer => capabilities_account_analyzer
  | smart_contract_auditor => capabilities_smart_contract_auditor
  | data_scraper => capabilities_data_scraper
  end.

Definition agentConfigs : list AgentTypeConfig :=
  [ {| config_id := transaction_optimizer;
       config_name := "Transaction Optimizer";
       config_description :=
         "Helps users optimize transaction fees based on network congestion and recommended fee structures";
       config_capabilities := capabilities transaction_optimizer;
       defaultSettings :=
         list_to_map
           [ ("historyDepth", JNum 1000);
             ("updateFrequency", JNum 60);
             ("priorityLevels", JObj [("fast", JNum 3); ("standard", JNum 12)]) ];
       icon := "optimization" |};
    {| config_id := program_deployment;
       config_name := "Program Deployment Assistant";
       config_description :=
         "Automates and assists developers in deploying Solana programs across environments";
       config_capabilities := capabilities program_deployment;
       defaultSettings :=
         list_to_map
           [ ("environments", JArr [JStr "devnet"; JStr "testnet"; JStr "mainnet-beta"]);
             ("defaultEnvironment", JStr "devnet");
             ("cacheDeployments", JBool true) ];
       icon := "deployment" |};
    {| config_id := account_analyzer;
       config_name := "Account Analyzer";
       config_description :=
         "Helps users analyze Solana accounts, providing insights into balances, token distributions, and transaction histories";
       config_capabilities := capabilities account_analyzer;
       defaultSettings :=
         list_to_map
           [ ("analysisDepth", JNum 90);
             ("tokenPriceSource", JStr "jupiter");
             ("saveAccountHistory", JBool true) ];
       icon := "analyze" |};
    {| config_id := smart_contract_auditor;
       config_name := "Smart Contract Auditor";
       config_description :=
         "Audits Solana smart contracts to identify vulnerabilities, inefficiencies, and provide optimization suggestions";
       config_capabilities := capabilities smart_contract_auditor;
       defaultSettings :=
         list_to_map
           [ ("auditDepth", JStr "standard");
             ("includeBestPractices", JBool true);
             ("includeOptimizations", JBool true);
             ("saveAuditHistory", JBool true) ];
       icon := "audit" |};
    {| config_id := data_scraper;
       config_name := "Data Scraper";
       config_description :=
         "Scrapes data from Solana for reporting purposes, including token transfers, program interactions, and market data";
       config_capabilities := capabilities data_scraper;
       defaultSettings :=
         list_to_map
           [ ("maxDataPoints", JNum 10000);
             ("exportFormats", JArr [JStr "csv"; JStr "json"]);
             ("defaultExportFormat", JStr "csv");
             ("saveQueries", JBool true) ];
       icon := "data" |} ].

Definition getAgentConfig (agentType : AgentType) : option AgentTypeConfig :=
  List.find (λ config, bool_decide (config_id config = agentType)) agentConfigs.

Definition getAgentTypes : list AgentType := config_id <$> agentConfigs.

(** ** [lib/agents/base-agent.ts]: the class [BaseAgent] *)

Record BaseAgent := {
  agent_id : string;
  agent_name : string;
  agent_type : AgentType;
  agent_options : Settings;
  agent_client : McpClient;
  agent_state : Settings;
  networkStatus : option Json;
  isCustom : bool
}.

(** [{ ...a, ...b }]: the properties of [b], and those of [a] that [b]
    does not have. *)
Definition spread (a b : Settings) : Settings := b ∪ a.

(** The constructor; [options] is [None] when the argument is omitted. *)
Definition new_BaseAgent (id name : string) (type : AgentType) (mcpClient : McpClient)
    (options : option Settings) : BaseAgent :=
  let agentConfig := getAgentConfig type in
  {| agent_id := id;
     agent_name := name;
     agent_type := type;
     agent_client := mcpClient;
     agent_options := spread (default ∅ (defaultSettings <$> agentConfig)) (default ∅ options);
     agent_state := ∅;
     networkStatus := None;
     isCustom := false |}.

Definition getOptions (a : BaseAgent) : Settings := spread ∅ (agent_options a).

Definition updateOptions (a : BaseAgent) (options : Settings) : BaseAgent :=
  {| agent_id := agent_id a; agent_name := agent_name a; agent_type := agent_type a;
     agent_client := agent_client a;
     agent_options := spread (agent_options a) options;
     agent_state := agent_state a; networkStatus := networkStatus a;
     isCustom := isCustom a |}.

(** What [saveState] returns, and what [loadState] reads of its argument:
    a field is [None] when the argument does not have it. *)
Record SavedState := {
  saved_id : option string;
  saved_name : option string;
  saved_type : option AgentType;
  saved_options : option Settings;
  saved_state : option Settings;
  saved_isCustom : option bool
}.

Definition saveState (a : BaseAgent) : SavedState :=
  {| saved_id := Some (agent_id a);
     saved_name := Some (agent_name a);
     saved_type := Some (agent_type a);
     saved_options := Some (agent_options a);
     saved_state := Some (spread ∅ (agent_state a));
     saved_isCustom := Some (isCustom a) |}.

Definition loadState (a : BaseAgent) (state : SavedState) : BaseAgent :=
  {| agent_id := if truthy_str (saved_id state) then template (saved_id state) else agent_id a;
     agent_name :=
       if truthy_str (saved_name state) then template (saved_name state) else agent_name a;
     agent_type := agent_type a;
     agent_client := agent_client a;
     agent_options :=
       match saved_options state with
       | Some options => spread ∅ options
       | None => agent_options a
       end;
     agent_state :=
       match saved_state state with
       | Some st => spread ∅ st
       | None => agent_state a
       end;
     networkStatus := networkStatus a;
     isCustom := default (isCustom a) (saved_isCustom state) |}.

(** [reset()] *)
Definition reset_agent (a : BaseAgent) : BaseAgent :=
  {| agent_id := agent_id a; agent_name := agent_name a; agent_type := agent_type a;
     agent_client := agent_client a; agent_options := agent_options a;
     agent_state := ∅; networkStatus := None; isCustom := isCustom a |}.

(** [String(error)]: [Error.prototype.toString] for an instance of an error
    class, [Object.prototype.toString] for another object. *)
Definition error_toString (e : Thrown) : string :=
  match e with
  | Instance_ _ nm msg _ =>
      if String.eqb nm "" then msg
      else if String.eqb msg "" then nm
      else nm +:+ ": " +:+ msg
  | Object_ _ _ _ => "[object Object]"
  end.

(** [executeMcpQuery(method, params)]: the result, the state, and what
    [console.error] was given. *)
Definition executeMcpQuery `{Host} (a : BaseAgent) (env : Env) (method : string)
    (params : Json) (s : State)
  : option (Completion Json * State * list (string * Thrown)) :=
  match execute (agent_client a) env method params s with
  | Some (Return result, s) => Some (Return result, s, [])
  | Some (Throw error, s) =>
      Some (Throw (new_Error ("Failed to execute MCP query: " +:+ error_toString error)),
            s,
            [("MCP query error in " +:+ agent_type_string (agent_type a) +:+ " agent:", error)])
  | None => None
  end.

(** An address for the examples. *)
Definition system_program : string := "11111111111111111111111111111111".

(** An agent for the examples. *)
Definition demo_agent : BaseAgent :=
  new_BaseAgent "agent-1" "Analyzer" account_analyzer (client_with_attempts 3) None.

(** ** [utils/formatting.ts]

    A string is a sequence of characters of one code unit each, and the
    numbers are integers. *)

(** [s.slice(start, end)]; [end] is [None] when it is omitted. *)
Definition slice (s : string) (start : Z) (end_ : option Z) : string :=
  let len := Z.of_nat (String.length s) in
  let from := if start <? 0 then Z.max (len + start) 0 else Z.min start len in
  let to :=
    match end_ with
    | None => len
    | Some e => if e <? 0 then Z.max (len + e) 0 else Z.min e len
    end in
  String.substring (Z.to_nat from) (Z.to_nat (to - from)) s.

(** [formatAddress(address, prefixLength = 4, suffixLength = 4)] *)
Definition formatAddress (address : string) (prefixLength suffixLength : option Z) : string :=
  let prefixLength := default 4 prefixLength in
  let suffixLength := default 4 suffixLength in
  if String.eqb address "" then ""
  else if Z.of_nat (String.length address) <=? prefixLength + suffixLength then address
  else
    let prefix := slice address 0 (Some prefixLength) in
    let suffix := slice address (- suffixLength) None in
    prefix +:+ "..." +:+ suffix.

(** [formatRelativeTime(timestamp)], at time [now = Date.now()] *)
Definition formatRelativeTime (now timestamp : Z) : string :=
  let ms := if timestamp >? 1000000000000 then timestamp else timestamp * 1000 in
  let diffMs := now - ms in
  let diffSeconds := diffMs / 1000 in
  if diffSeconds <? 60 then
    if diffSeconds <=? 5 then "just now" else pretty diffSeconds +:+ " seconds ago"
  else
    let diffMinutes := diffSeconds / 60 in
    if diffMinutes <? 60 then
      pretty diffMinutes +:+ " " +:+ (if diffMinutes =? 1 then "minute" else "minutes") +:+ " ago"
    else
      let diffHours := diffMinutes / 60 in
      if diffHours <? 24 then
        pretty diffHours +:+ " " +:+ (if diffHours =? 1 then "hour" else "hours") +:+ " ago"
      else
        let diffDays := diffHours / 24 in
        if diffDays <? 30 then
          pretty diffDays +:+ " " +:+ (if diffDays =? 1 then "day" else "days") +:+ " ago"
        else
          let diffMonths := diffDays / 30 in
          if diffMonths <? 12 then
            pretty diffMonths +:+ " " +:+ (if diffMonths =? 1 then "month" else "months")
              +:+ " ago"
          else
            let diffYears := diffMonths / 12 in
            pretty diffYears +:+ " " +:+ (if diffYears =? 1 then "year" else "years") +:+ " ago".

(** ** [utils/validation.ts]: [validateConfig]

    The configuration is an object whose values are JSON values, read
    through its own properties; the schema is the list of its entries in
    the order of [Object.entries]. *)

Inductive FieldType :=
  | string_t
  | number_t
  | boolean_t
  | object_t
  | array_t.

Definition type_name (t : FieldType) : string :=
  match t with
  | string_t => "string"
  | number_t => "number"
  | boolean_t => "boolean"
  | object_t => "object"
  | array_t => "array"
  end.

Record Rules := {
  rule_type : FieldType;
  required : option bool;
  validator : option (Json → bool)
}.

(** [Array.isArray(v) ? 'array' : typeof v] *)
Definition valueType (v : Json) : string :=
  match v with
  | JArr _ => "array"
  | JNull => "object"
  | JBool _ => "boolean"
  | JNum _ => "number"
  | JStr _ => "string"
  | JObj _ => "object"
  end.

(** One turn of the loop: the messages it pushes, for a field whose name
    is not [inherited] (for the others, [config[field]] finds a member of
    the prototype, which is not a JSON value). *)
Definition check_field (config : Settings) (field : string) (rules : Rules) : list string :=
  match config !! field with
  | None | Some JNull =>
      if default false (required rules) then ["Missing required field: " +:+ field] else []
  | Some v =>
      (if negb (String.eqb (valueType v) (type_name (rule_type rules)))
       then ["Field " +:+ field +:+ " should be of type " +:+ type_name (rule_type rules)
               +:+ ", got " +:+ valueType v]
       else [])
      ++ match validator rules with
         | Some f => if negb (f v) then ["Field " +:+ field +:+ " failed custom validation"] else []
         | None => []
         end
  end.

Fixpoint validate_fields (config : Settings) (schema : list (string * Rules))
    (errors : list string) : list string :=
  match schema with
  | [] => errors
  | (field, rules) :: rest => validate_fields config rest (errors ++ check_field config field rules)
  end.

Definition validateConfig (config : Settings) (schema : list (string * Rules))
    (throwOnError : option bool) : Completion (bool * list string) :=
  let errors := validate_fields config schema [] in
  let valid := bool_decide (length errors = 0%nat) in
  if negb valid && default false throwOnError
  then Throw (new_Error ("Config validation failed: " +:+ String.concat ", " errors))
  else Return (valid, errors).

(** What the loop asks of one field, to state the properties with. *)
Definition field_ok (config : Settings) (entry : string * Rules) : bool :=
  match config !! entry.1 with
  | None | Some JNull => negb (default false (required entry.2))
  | Some v =>
      String.eqb (valueType v) (type_name (rule_type entry.2))
      && match validator entry.2 with Some f => f v | None => true end
  end.

(** A schema for the examples, with the rule of [retryAttempts] of
    [validateMcpConfig]. *)
Definition demo_schema : list (string * Rules) :=
  [ ("defaultEndpoint",
      {| rule_type := string_t; required := Some true; validator := None |});
    ("retryAttempts",
      {| rule_type := number_t; required := None;
         validator := Some (λ v, match v with JNum z => (0 <=? z) && (z <=? 10) | _ => false end) |}) ].

Definition demo_config : Settings :=
  <["defaultEndpoint" := JStr "mainnet"]> (<["retryAttempts" := JNum 3]> ∅).

(** ** [lib/solana/program-utils.ts]: the batch size of
    [TransactionUtils.calculateOptimalBatchSize]

    The result has two fields. [batchSize] is computed from the two
    arguments with [Math.floor], [Math.min] and [Math.ceil] alone, and is
    embedded here over the integers; [estimatedSavings] is a percentage
    computed in floating point from [batchSize], and is left out. *)

(** [Math.ceil(a / b)] *)
Definition ceil_div (a b : Z) : Z := - ((- a) / b).

Definition calculateOptimalBatchSize_batchSize (transactionCount : Z)
    (computeUnitsPerTx : option Z) : Z :=
  let computeUnitsPerTx := default 200000 computeUnitsPerTx in
  if transactionCount <=? 1 then 1
  else
    let maxInstructionsPerTx := 1400000 / computeUnitsPerTx in
    let rawBatchSize := Z.min transactionCount maxInstructionsPerTx in
    if transactionCount >? maxInstructionsPerTx then
      let batchCount := ceil_div transactionCount maxInstructionsPerTx in
      ceil_div transactionCount batchCount
    else rawBatchSize.

(** * Properties *)

(** ** Retry eligibility *)

Lemma instanceof_timeout_not_network error :
  instanceof error McpTimeoutError = true → is_network_error error = false.
Proof.
  destruct error as [cls nm msg p | nm msg p]; [|done].
  unfold is_network_error; cbn. by destruct cls.
Qed.

Lemma isRetryableError_response msg c :
  isRetryableError (new_McpResponseError msg (Some c)) = bool_decide (c ∈ retryableCodes).
Proof. reflexivity. Qed.





(** A rejection of [fetch] whose message does not contain "network" is not
    retried, although [handleMcpError] makes a connection error of it. *)
Remark fetch_rejection_not_retried :
  isRetryableError (new_TypeError "Failed to fetch") = false
  ∧ errorType (@handleMcpError demo_host (new_TypeError "Failed to fetch"))
    = Some CONNECTION
  ∧ isRetryableError (new_TypeError "A network error occurred") = true.
Proof. done. Qed.

(** ** Response validation *)

(** C6. [validateMethodResponse] has exactly one of four outcomes: a
    response error for an empty body; a response error made from the code
    and message of the [error] field, when the body has one; a response
    error for a missing result, when the body has neither [error] nor
    [result]; the result payload itself otherwise. *)
Theorem validateMethodResponse_outcomes (response : option McpResponse) (methodId : string) :
  let outcome := validateMethodResponse response methodId in
  let empty :=
    response = None
    ∧ outcome = Throw (new_McpResponseError
                         ("Empty response from MCP method: " +:+ methodId) None) in
  let has_error :=
    ∃ r err e, response = Some r ∧ error r = Some err
      ∧ outcome = Throw e
      ∧ errorType e = Some RESPONSE
      ∧ statusCode (props e) = Some (or_const (code err) 0)
      ∧ message e = Some ("MCP error in method " +:+ methodId +:+ ": "
                            +:+ or_str (error_message err) "Unknown error") in
  let missing_result :=
    ∃ r, response = Some r ∧ error r = None ∧ result r = None
      ∧ outcome = Throw (new_McpResponseError
                           ("Missing result in MCP response for method: " +:+ methodId)
                           None) in
  let has_result :=
    ∃ r payload, response = Some r ∧ error r = None ∧ result r = Some payload
      ∧ outcome = Return payload in
  (empty ∨ has_error ∨ missing_result ∨ has_result)
  ∧ ¬ (empty ∧ has_error) ∧ ¬ (empty ∧ missing_result) ∧ ¬ (empty ∧ has_result)
  ∧ ¬ (has_error ∧ missing_result) ∧ ¬ (has_error ∧ has_result)
  ∧ ¬ (missing_result ∧ has_result)
  ∧ errorType (new_McpResponseError ("Empty response from MCP method: " +:+ methodId) None)
    = Some RESPONSE
  ∧ errorType (new_McpResponseError
                 ("Missing result in MCP response for method: " +:+ methodId) None)
    = Some RESPONSE.
Proof.
  cbv zeta. split.
  2: { repeat split;
         try (intros [? ?];
              repeat match goal with
                     | H : ∃ _, _ |- _ => destruct H
                     | H : _ ∧ _ |- _ => destruct H
                     end; congruence). }
  destruct response as [r|]; [|by left].
  destruct (error r) as [err|] eqn:Herr.
  - right; left. exists r, err. eexists. split; [done|]. split; [done|].
    cbn. rewrite Herr. done.
  - destruct (result r) as [payload|] eqn:Hres.
    + do 3 right. exists r, payload. cbn. rewrite Herr, Hres. done.
    + do 2 right; left. exists r. cbn. rewrite Herr, Hres. done.
Qed.

(** The code and the message of the [error] field, when they are there,
    are the status code and the end of the message of the error. *)
Lemma validateMethodResponse_error_field r err methodId c m :
  error r = Some err → code err = Some c → error_message err = Some m → m ≠ "" →
  validateMethodResponse (Some r) methodId =
    Throw (new_McpResponseError ("MCP error in method " +:+ methodId +:+ ": " +:+ m) (Some c)).
Proof.
  intros Herr Hc Hm Hne. cbn. rewrite Herr, Hc, Hm. cbn.
  destruct (String.eqb_spec m ""); [done|].
  destruct (Z.eqb_spec c 0) as [->|]; reflexivity.
Qed.

(** ** Error classification *)

Lemma string_app_empty_r (s : string) : s +:+ "" = s.
Proof.
  induction s as [|a s IH]; [done|].
  change (String a (s +:+ "") = String a s). by rewrite IH.
Qed.

Lemma string_app_assoc (s1 s2 s3 : string) : (s1 +:+ s2) +:+ s3 = s1 +:+ s2 +:+ s3.
Proof.
  induction s1 as [|a s1 IH]; [done|].
  change (String a ((s1 +:+ s2) +:+ s3) = String a (s1 +:+ s2 +:+ s3)). by rewrite IH.
Qed.


Lemma by_status_spec failure :
  by_status failure = true ↔
    instanceof failure McpError = false ∧ is_network_error failure = false
    ∧ is_fetch_error failure = false ∧ is_json_error failure = false.
Proof.
  unfold by_status. rewrite !andb_true_iff, !negb_true_iff. tauto.
Qed.

Lemma handleMcpError_by_status `{Host} failure :
  by_status failure = true →
  handleMcpError failure =
    match http_status failure with
    | Some st =>
        if (st =? 401) || (st =? 403) then
          new_McpAuthError
            ("Authentication failed: " +:+ or_str (message failure) "Invalid API key")
        else if st =? 429 then
          new_McpRateLimitError
            ("MCP rate limit exceeded: " +:+ or_str (message failure) "Too many requests")
            (retry_after_hint failure)
        else
          new_McpResponseError
            ("MCP HTTP error " +:+ pretty st +:+ ": "
               +:+ or_str (message failure) "Unknown error")
            (Some st)
    | None => new_McpError ("MCP error: " +:+ or_str (message failure) "Unknown error")
    end.
Proof.
  intros (H1 & H2 & H3 & H4)%by_status_spec.
  unfold handleMcpError. by rewrite H1, H2, H3, H4.
Qed.













(** C10. A failure with status 403 that reaches the status test becomes an
    auth error whose status code is 401: the error is the one that a
    failure with status 401 and the same message gives, so the status code
    of the result does not tell the two apart. *)
Theorem handleMcpError_403_reports_401 `{Host} (failure : Thrown) :
  by_status failure = true →
  http_status failure = Some 403 →
  let r := handleMcpError failure in
  errorType r = Some AUTH
  ∧ statusCode (props r) = Some 401
  ∧ r = new_McpAuthError
          ("Authentication failed: " +:+ or_str (message failure) "Invalid API key")
  ∧ (∀ other, by_status other = true → http_status other = Some 401 →
       message other = message failure →
       handleMcpError other = r).
Proof.
  intros Hby Hst. cbv zeta.
  rewrite (handleMcpError_by_status _ Hby), Hst. cbn.
  repeat split.
  intros other Hby' Hst' Hm.
  by rewrite (handleMcpError_by_status _ Hby'), Hst', Hm.
Qed.

Lemma handleMcpError_403_reports_401_witness :
  by_status forbidden = true
  ∧ http_status forbidden = Some 403
  ∧ statusCode (props (@handleMcpError demo_host forbidden)) = Some 401.
Proof.
  split; [reflexivity|]. split; [reflexivity|].
  apply (@handleMcpError_403_reports_401 demo_host forbidden); reflexivity.
Defined.

(** ** The rate-limit ledger *)

(** C8. For a method id that is not the name of a member inherited from
    [Object.prototype], [checkRateLimit] allows a call exactly when the
    ledger has no entry for the method, or the time is past the reset time
    of the entry, or the count of the entry is below 60. The method
    descriptor and its quota play no part: the test reads the ledger and the
    clock only. *)
Theorem checkRateLimit_spec (now : Z) (methodId : string) (rateState : Ledger) (st : Store) :
  inherited methodId = false →
  (checkRateLimit now methodId rateState st = true ↔
     entry rateState st methodId = None
     ∨ ∃ e, entry rateState st methodId = Some e ∧ (resetTime e < now ∨ count e < 60))
  ∧ (entry rateState st methodId = None →
       checkRateLimit now methodId rateState st = true)
  ∧ (∀ e, entry rateState st methodId = Some e → 60 ≤ count e → now ≤ resetTime e →
       checkRateLimit now methodId rateState st = false)
  ∧ (∀ e, entry rateState st methodId = Some e → resetTime e < now →
       checkRateLimit now methodId rateState st = true).
Proof.
  intros _. unfold checkRateLimit.
  destruct (entry rateState st methodId) as [e|].
  - split; [|split; [done|split]].
    + destruct (Z.gtb_spec now (resetTime e)).
      { split; [|done]. intros _. right. exists e. split; [done|lia]. }
      destruct (Z.ltb_spec (count e) 60); split; try done.
      * intros _. right. exists e. split; [done|lia].
      * intros [? | (e' & [= <-] & ?)]; [done|lia].
    + intros e' [= <-] Hc Hn.
      destruct (Z.gtb_spec now (resetTime e)); [lia|].
      destruct (Z.ltb_spec (count e) 60); [lia|done].
    + intros e' [= <-] Hn.
      destruct (Z.gtb_spec now (resetTime e)); [done|lia].
  - split; [|done]. split; auto.
Qed.

(** [getProgramAccounts] has a quota of 20 calls per minute in the method
    table; with 59 calls counted in an open window it is still allowed, and
    with 60 it is refused. *)
Lemma checkRateLimit_spec_witness :
  inherited "getProgramAccounts" = false
  ∧ (rateLimitPerMinute <$> getMethod "getProgramAccounts") = Some 20
  ∧ checkRateLimit 1000 "getProgramAccounts" {[ "getProgramAccounts" := 1%positive ]}
      {[ 1%positive := {| count := 59; resetTime := 5000 |} ]} = true
  ∧ checkRateLimit 1000 "getProgramAccounts" {[ "getProgramAccounts" := 1%positive ]}
      {[ 1%positive := {| count := 60; resetTime := 5000 |} ]} = false
  ∧ checkRateLimit 6000 "getProgramAccounts" {[ "getProgramAccounts" := 1%positive ]}
      {[ 1%positive := {| count := 60; resetTime := 5000 |} ]} = true
  ∧ checkRateLimit 1000 "getProgramAccounts" ∅ ∅ = true.
Proof.
  split; [reflexivity|]. split; [reflexivity|]. repeat apply conj.
  - destruct (checkRateLimit_spec 1000 "getProgramAccounts"
                {[ "getProgramAccounts" := 1%positive ]}
                {[ 1%positive := {| count := 59; resetTime := 5000 |} ]} eq_refl)
      as ([_ Hiff] & _).
    apply Hiff. right. eexists. split; [reflexivity|]. cbn. lia.
  - destruct (checkRateLimit_spec 1000 "getProgramAccounts"
                {[ "getProgramAccounts" := 1%positive ]}
                {[ 1%positive := {| count := 60; resetTime := 5000 |} ]} eq_refl)
      as (_ & _ & Hfull & _).
    eapply Hfull; [reflexivity | cbn; lia | cbn; lia].
  - destruct (checkRateLimit_spec 6000 "getProgramAccounts"
                {[ "getProgramAccounts" := 1%positive ]}
                {[ 1%positive := {| count := 60; resetTime := 5000 |} ]} eq_refl)
      as (_ & _ & _ & Hpast).
    eapply Hpast; [reflexivity | cbn; lia].
  - destruct (checkRateLimit_spec 1000 "getProgramAccounts" ∅ ∅ eq_refl) as (_ & Hnone & _).
    apply Hnone. reflexivity.
Defined.

(** What [updateRateLimit] stores for the method in the ledger it returns. *)
Lemma updateRateLimit_entry now methodId (rateState : Ledger) response (st : Store) :
  wf rateState st →
  let '(newState, st') := updateRateLimit now methodId rateState response st in
  entry newState st' methodId =
    Some match metadata response ≫= rateLimit with
         | Some rl => {| count := limit rl - remaining rl; resetTime := reset rl * 1000 |}
         | None =>
             match entry rateState st methodId with
             | Some e => {| count := count e + 1; resetTime := resetTime e |}
             | None => {| count := 1; resetTime := now + 60000 |}
             end
         end.
Proof.
  intros Hwf. unfold updateRateLimit, alloc, entry.
  destruct (metadata response ≫= rateLimit) as [rl|].
  { rewrite lookup_insert_eq. cbn. by rewrite lookup_insert_eq. }
  destruct (rateState !! methodId) as [r|] eqn:Hr; cbn.
  - rewrite Hr. cbn. rewrite lookup_alter_eq.
    destruct (Hwf _ _ Hr) as [e ->]. done.
  - rewrite lookup_insert_eq. cbn. by rewrite lookup_insert_eq.
Qed.

(** When [updateRateLimit] makes a new entry object, the ledger it was
    given reads as before. *)
Lemma updateRateLimit_frame_new now methodId (rateState : Ledger) response (st : Store) :
  wf rateState st →
  is_Some (metadata response ≫= rateLimit) ∨ rateState !! methodId = None →
  ∀ m, entry rateState (updateRateLimit now methodId rateState response st).2 m
       = entry rateState st m.
Proof.
  intros Hwf Hnew m.
  assert (∀ e, entry rateState (<[fresh (dom st) := e]> st) m = entry rateState st m)
    as Hfresh.
  { intros e. unfold entry. destruct (rateState !! m) as [r|] eqn:Hr; [|done]. cbn.
    apply lookup_insert_ne. intros <-.
    destruct (Hwf _ _ Hr) as [e' He'].
    by apply (is_fresh (dom st)), elem_of_dom. }
  unfold updateRateLimit, alloc.
  destruct (metadata response ≫= rateLimit) as [rl|]; [apply Hfresh|].
  destruct Hnew as [[? [=]] | ->]. apply Hfresh.
Qed.

(** When the method has an entry and the envelope has no snapshot,
    [updateRateLimit] increments the count in the entry object of the
    ledger it was given: the given ledger and the returned one read the
    same incremented entry. *)
Lemma updateRateLimit_increments_in_place now methodId (rateState : Ledger) response
    (st : Store) e :
  metadata response ≫= rateLimit = None →
  entry rateState st methodId = Some e →
  let '(newState, st') := updateRateLimit now methodId rateState response st in
  newState = rateState
  ∧ entry rateState st' methodId = Some {| count := count e + 1; resetTime := resetTime e |}.
Proof.
  intros Hmeta He. unfold updateRateLimit, entry in *. rewrite Hmeta.
  destruct (rateState !! methodId) as [r|] eqn:Hr; [|done]. cbn in *.
  split; [done|]. by rewrite lookup_alter_eq, He.
Qed.

(** C7 (the claim fails on the code). On a ledger that has an entry for the
    method and an envelope without a rate-limit snapshot, [updateRateLimit]
    changes the entry of the ledger it was given: the count read through
    the argument goes from 1 to 2. With a snapshot, the argument reads as
    before. *)
Theorem updateRateLimit_mutates_argument :
  entry ledger1 store1 "getHealth" = Some {| count := 1; resetTime := 5000 |}
  ∧ entry ledger1 (updateRateLimit 1000 "getHealth" ledger1 plain_response store1).2
      "getHealth"
    = Some {| count := 2; resetTime := 5000 |}
  ∧ entry ledger1 (updateRateLimit 1000 "getHealth" ledger1 metered_response store1).2
      "getHealth"
    = Some {| count := 1; resetTime := 5000 |}
  ∧ entry (updateRateLimit 1000 "getHealth" ledger1 metered_response store1).1
      (updateRateLimit 1000 "getHealth" ledger1 metered_response store1).2
      "getHealth"
    = Some {| count := 55; resetTime := 100000 |}.
Proof. vm_compute. done. Qed.

(** ** The protocol client *)

Section Execute.
Context `{Host} (c : McpClient) (env : Env).

Lemma fetches_emit ev s :
  fetches (trace (emit ev s)) = (fetches (trace s) + if is_fetch ev then 1 else 0)%nat.
Proof.
  unfold fetches, emit; cbn. rewrite List.filter_app, length_app. cbn.
  by destruct (is_fetch ev).
Qed.

Lemma sleeps_emit ev s :
  sleeps (trace (emit ev s))
  = sleeps (trace s) ++ match ev with Sleep ms => [ms] | _ => [] end.
Proof.
  unfold sleeps, emit; cbn. rewrite omap_app. f_equal. by destruct ev.
Qed.

(** An attempt sends one request; it does not sleep and does not touch
    the store. *)
Lemma try_attempt_effects methodId url request attempt s r s1 :
  try_attempt c env methodId url request attempt s = (r, s1) →
  store s1 = store s
  ∧ fetches (trace s1) = S (fetches (trace s))
  ∧ sleeps (trace s1) = sleeps (trace s).
Proof.
  unfold try_attempt, executeWithTimeout.
  set (s_dbg := if debug (options c) then _ else s).
  assert (store s_dbg = store s ∧ fetches (trace s_dbg) = fetches (trace s)
          ∧ sleeps (trace s_dbg) = sleeps (trace s)) as (Hst & Hf & Hsl).
  { subst s_dbg. destruct (debug (options c)); [|done].
    rewrite fetches_emit, sleeps_emit. cbn. by rewrite Nat.add_0_r, app_nil_r. }
  set (s_sent := emit (Fetch _ _ _) s_dbg).
  assert (store s_sent = store s ∧ fetches (trace s_sent) = S (fetches (trace s))
          ∧ sleeps (trace s_sent) = sleeps (trace s)) as Hsent.
  { subst s_sent. rewrite fetches_emit, sleeps_emit. cbn.
    rewrite Hf, Hsl, app_nil_r. split; [done|]. split; [lia|done]. }
  destruct (transport env attempt) as [|msg|response].
  - by intros [= <- <-].
  - by intros [= <- <-].
  - destruct (negb (ok response)); [by intros [= <- <-]|].
    destruct (json response) as [msg|body]; [by intros [= <- <-]|].
    destruct (validateMethodResponse body methodId) as [payload|e];
      [|by intros [= <- <-]].
    destruct (debug (options c)); intros [= <- <-]; [|done].
    rewrite fetches_emit, sleeps_emit. cbn.
    by rewrite Nat.add_0_r, app_nil_r.
Qed.

(** What an attempt returns is the [result] field of the body of a
    response with an ok status; the rest of the envelope is dropped. *)
Lemma try_attempt_payload methodId url request attempt s payload s1 :
  try_attempt c env methodId url request attempt s = (Return payload, s1) →
  ∃ response body,
    transport env attempt = Responded response ∧ ok response = true
    ∧ json response = inr (Some body)
    ∧ error body = None ∧ result body = Some payload.
Proof.
  unfold try_attempt, executeWithTimeout.
  destruct (transport env attempt) as [|msg|response]; [done..|].
  destruct (ok response) eqn:Hok; [|done]. cbn.
  destruct (json response) as [msg|body] eqn:Hjson; [done|].
  destruct (validateMethodResponse body methodId) as [v|e] eqn:Hv; [|done].
  intros Hret. assert (v = payload) as -> by (destruct (debug (options c)); congruence).
  destruct body as [body|]; [|done]. cbn in Hv.
  destruct (error body) eqn:He; [done|].
  destruct (result body) eqn:Hr; [|done].
  injection Hv as ->. eauto 10.
Qed.

(** The errors of an attempt are a timeout error, a [TypeError], a
    response error or a [SyntaxError]. *)
Lemma try_attempt_throws methodId url request attempt s e s1 :
  try_attempt c env methodId url request attempt s = (Throw e, s1) →
  ∃ cls nm msg p, e = Instance_ cls nm msg p
    ∧ cls ∈ [McpTimeoutError; TypeError; McpResponseError; SyntaxError].
Proof.
  unfold try_attempt, executeWithTimeout.
  destruct (transport env attempt) as [|msg|response].
  - intros [= <- _]. do 4 eexists. split; [reflexivity|]. set_solver.
  - intros [= <- _]. do 4 eexists. split; [reflexivity|]. set_solver.
  - destruct (negb (ok response)).
    { intros [= <- _]. do 4 eexists. split; [reflexivity|]. set_solver. }
    destruct (json response) as [msg|body].
    { intros [= <- _]. do 4 eexists. split; [reflexivity|]. set_solver. }
    destruct (validateMethodResponse body methodId) as [v|e'] eqn:Hv; [done|].
    intros [= <- _].
    destruct body as [body|]; cbn in Hv.
    + destruct (error body).
      { injection Hv as <-. do 4 eexists. split; [reflexivity|]. set_solver. }
      destruct (result body); [done|].
      injection Hv as <-. do 4 eexists. split; [reflexivity|]. set_solver.
    + injection Hv as <-. do 4 eexists. split; [reflexivity|]. set_solver.
Qed.

(** One iteration of the loop. *)
Lemma execute_loop_unfold fuel methodId url request attempt lastError s :
  execute_loop (S fuel) c env methodId url request attempt lastError s =
    if attempt <? max_attempts (options c) then
      match try_attempt c env methodId url request (attempt + 1) s with
      | (Return validatedResponse, s) => Some (Return validatedResponse, s)
      | (Throw error, s) =>
          if negb (isRetryableError error) || (attempt + 1 >=? max_attempts (options c))
          then Some (Throw (handleMcpError error), s)
          else execute_loop fuel c env methodId url request (attempt + 1) (Some error)
                 (emit (Sleep (backoffMs (attempt + 1))) s)
      end
    else
      Some (Throw (handleMcpError (default (new_Error "Unknown MCP error") lastError)), s).
Proof. reflexivity. Qed.

(** The loop ends within [max_attempts - attempt] iterations. *)
Lemma execute_loop_total fuel methodId url request attempt lastError s :
  (Z.to_nat (max_attempts (options c) - attempt) ≤ fuel)%nat →
  is_Some (execute_loop fuel c env methodId url request attempt lastError s).
Proof.
  revert attempt lastError s.
  induction fuel as [|fuel IH]; intros attempt lastError s Hfuel.
  - cbn. destruct (Z.ltb_spec attempt (max_attempts (options c))); [lia|done].
  - rewrite execute_loop_unfold.
    destruct (Z.ltb_spec attempt (max_attempts (options c))); [|done].
    destruct (try_attempt _ _ _ _ _ _ _) as [[v|e] s1]; [done|].
    destruct (_ || _); [done|]. apply IH. lia.
Qed.
End Execute.

(** [handleMcpError] gives a request error only when it is given one. *)
Lemma handleMcpError_request `{Host} failure :
  errorType (handleMcpError failure) = Some REQUEST → errorType failure = Some REQUEST.
Proof.
  unfold handleMcpError.
  destruct (instanceof failure McpError); [done|].
  destruct (is_network_error failure); [done|].
  destruct (is_fetch_error failure); [done|].
  destruct (is_json_error failure); [done|].
  destruct (http_status failure) as [st|]; [|done].
  destruct ((st =? 401) || (st =? 403)); [done|].
  by destruct (st =? 429).
Qed.

(** The loop does not touch the store, and the error it ends with is not a
    request error. *)
Lemma execute_loop_frame `{Host} c env fuel methodId url request attempt lastError s r s' :
  execute_loop fuel c env methodId url request attempt lastError s = Some (r, s') →
  (∀ e, lastError = Some e → errorType e ≠ Some REQUEST) →
  store s' = store s ∧ ∀ e, r = Throw e → errorType e ≠ Some REQUEST.
Proof.
  revert attempt lastError s.
  induction fuel as [|fuel IH]; intros attempt lastError s Hrun Hlast.
  - cbn in Hrun. destruct (attempt <? max_attempts (options c)); [done|].
    injection Hrun as <- <-. split; [done|]. intros e [= <-] Hreq%handleMcpError_request.
    destruct lastError as [e|]; [by eapply Hlast|done].
  - rewrite execute_loop_unfold in Hrun.
    destruct (attempt <? max_attempts (options c)).
    + destruct (try_attempt _ _ _ _ _ _ _) as [[v|e] s1] eqn:Htry.
      { injection Hrun as <- <-. split; [|done]. by eapply try_attempt_effects. }
      assert (errorType e ≠ Some REQUEST) as Hne.
      { destruct (try_attempt_throws _ _ _ _ _ _ _ _ _ Htry) as (cls & nm & msg & p & -> & Hcls).
        cbn. repeat (apply elem_of_cons in Hcls as [-> | Hcls]; [done|]).
        by apply elem_of_nil in Hcls. }
      apply try_attempt_effects in Htry as (Hst & _).
      destruct (_ || _).
      * injection Hrun as <- <-. split; [done|].
        by intros e' [= <-] Hreq%handleMcpError_request.
      * apply IH in Hrun as [Hst' Herr]; [|by intros e' [= <-]].
        split; [by rewrite Hst'|done].
    + injection Hrun as <- <-. split; [done|]. intros e [= <-] Hreq%handleMcpError_request.
      destruct lastError as [e|]; [by eapply Hlast|done].
Qed.

(** C4. For a method id that the registry does not know, [execute] throws
    the request error at once: the state is as before, so no request was
    sent and no retry was slept for, and the error is not retryable. For a
    method id of the registry, [execute] ends, and the error it may end with
    is not a request error. *)
Theorem execute_unknown_method `{Host} (c : McpClient) (env : Env) (methodId : string)
    (params : Json) (s : State) :
  (getMethod methodId = None →
     ∃ e s', execute c env methodId params s = Some (Throw e, s')
       ∧ e = new_McpRequestError ("Unknown MCP method: " +:+ methodId)
       ∧ errorType e = Some REQUEST
       ∧ isRetryableError e = false
       ∧ s' = s
       ∧ fetches (trace s') = fetches (trace s)
       ∧ sleeps (trace s') = sleeps (trace s))
  ∧ (is_Some (getMethod methodId) →
     ∃ r s', execute c env methodId params s = Some (r, s')
       ∧ ∀ e, r = Throw e → errorType e ≠ Some REQUEST).
Proof.
  unfold execute. split.
  - intros ->. by do 2 eexists.
  - intros [method ->].
    match goal with
    | |- ∃ r s', ?run = _ ∧ _ => destruct run as [[r s']|] eqn:Hrun
    end.
    + exists r, s'. split; [done|]. by eapply execute_loop_frame.
    + pose proof (execute_loop_total c env (Z.to_nat (max_attempts (options c))) methodId
                    (createMethodUrl (url (default getDefaultEndpoint (getEndpoint (endpointId c)))) methodId)
                    (formatMcpRequest env params (apiKey c) None None) 0 None s) as Htot.
      rewrite Hrun in Htot. destruct Htot as [? [=]]. lia.
Qed.

Lemma execute_unknown_method_witness :
  getMethod "getBlockHeight" = None
  ∧ is_Some (getMethod "getHealth")
  ∧ run_result (@execute demo_host (client_with_attempts 3) (env_timeout 0)
                  "getBlockHeight" (JObj []) s0)
    = Some (Throw (new_McpRequestError "Unknown MCP method: getBlockHeight"))
  ∧ run_trace (@execute demo_host (client_with_attempts 3) (env_timeout 0)
                 "getBlockHeight" (JObj []) s0) = []
  ∧ ∃ r s', @execute demo_host (client_with_attempts 3) (env_timeout 0)
              "getHealth" (JObj []) s0 = Some (r, s')
       ∧ ∀ e, r = Throw e → errorType e ≠ Some REQUEST.
Proof.
  destruct (@execute_unknown_method demo_host (client_with_attempts 3) (env_timeout 0)
              "getBlockHeight" (JObj []) s0) as [Hunknown _].
  destruct (@execute_unknown_method demo_host (client_with_attempts 3) (env_timeout 0)
              "getHealth" (JObj []) s0) as [_ Hknown].
  split; [reflexivity|]. split; [by eexists|].
  destruct (Hunknown eq_refl) as (e & s' & Hrun & -> & _ & _ & -> & _).
  rewrite Hrun. split; [reflexivity|]. split; [reflexivity|].
  apply Hknown. by eexists.
Defined.

(** *** A transport that always times out *)

Section AlwaysTimeout.
Context `{Host} (c : McpClient) (env : Env).
Hypothesis always : ∀ k, transport env k = TimedOut.

Lemma try_attempt_timeout methodId url request attempt s :
  ∃ s1, try_attempt c env methodId url request attempt s = (Throw (timeout_error c), s1).
Proof.
  unfold try_attempt, executeWithTimeout. rewrite always. by eexists.
Qed.

Lemma execute_loop_timeouts (n : nat) :
  ∀ fuel methodId url request attempt lastError s,
    max_attempts (options c) = attempt + Z.of_nat (S n) →
    (S n ≤ fuel)%nat →
    ∃ s', execute_loop fuel c env methodId url request attempt lastError s
          = Some (Throw (timeout_error c), s')
      ∧ fetches (trace s') = (fetches (trace s) + S n)%nat
      ∧ sleeps (trace s')
        = sleeps (trace s) ++ (backoffMs <$> seqZ (attempt + 1) (Z.of_nat n)).
Proof.
  induction n as [|n IH]; intros fuel methodId url request attempt lastError s HN Hfuel;
    (destruct fuel as [|fuel]; [lia|]); rewrite execute_loop_unfold;
    (destruct (Z.ltb_spec attempt (max_attempts (options c))); [|lia]);
    destruct (try_attempt_timeout methodId url request (attempt + 1) s) as [s1 Htry];
    rewrite Htry; apply try_attempt_effects in Htry as (_ & Hf & Hsl);
    change (isRetryableError (timeout_error c)) with true; cbn [negb orb].
  - destruct (Z.geb_spec (attempt + 1) (max_attempts (options c))); [|lia].
    exists s1. split; [reflexivity|]. rewrite Hf, Hsl. cbn.
    split; [lia|by rewrite app_nil_r].
  - destruct (Z.geb_spec (attempt + 1) (max_attempts (options c))); [lia|].
    destruct (IH fuel methodId url request (attempt + 1) (Some (timeout_error c))
                (emit (Sleep (backoffMs (attempt + 1))) s1))
      as (s' & -> & Hf' & Hsl'); [lia | lia |].
    exists s'. split; [reflexivity|].
    rewrite Hf', Hsl', fetches_emit, sleeps_emit, Hf, Hsl. cbn.
    split; [lia|].
    rewrite (seqZ_cons (attempt + 1)) by lia.
    rewrite <- List.app_assoc. cbn.
    replace (Z.pred (Z.of_nat (S n))) with (Z.of_nat n) by lia.
    by replace (Z.succ (attempt + 1)) with (attempt + 1 + 1) by lia.
Qed.
End AlwaysTimeout.

(** C3 (as the code has it). Against a transport that always times out, a
    client made with [retryAttempts = N], for [N] at least 1, sends exactly
    [N] requests; after the attempt number [k], for [k] from 1 to [N - 1],
    it sleeps [min(1000 * 2^(k-1), 10000)] milliseconds, a delay that does
    not depend on what [Math.random()] draws; and the error it ends with is
    the timeout error. *)
Theorem execute_always_timeout `{Host} (apiKey : string) (endpointId : option string)
    (opts : OptionsArg) (env : Env) (methodId : string) (params : Json) (s : State)
    (N : Z) :
  arg_retryAttempts opts = Some N →
  1 ≤ N →
  is_Some (getMethod methodId) →
  (∀ k, transport env k = TimedOut) →
  let c := new_McpClient apiKey endpointId (Some opts) in
  ∃ e s', execute c env methodId params s = Some (Throw e, s')
    ∧ e = new_McpTimeoutError
            ("MCP request timed out after " +:+ pretty (timeout (options c)) +:+ "ms")
    ∧ errorType e = Some TIMEOUT
    ∧ fetches (trace s') = (fetches (trace s) + Z.to_nat N)%nat
    ∧ sleeps (trace s')
      = sleeps (trace s) ++ ((λ k, Z.min (1000 * 2 ^ (k - 1)) 10000) <$> seqZ 1 (N - 1)).
Proof.
  intros Hopts HN [method Hm] Halways c.
  assert (max_attempts (options c) = N) as Hmax.
  { subst c. cbn. rewrite Hopts. cbn. destruct (Z.eqb_spec N 0); [lia|done]. }
  unfold execute. rewrite Hm, Hmax.
  pose proof (λ url request,
                execute_loop_timeouts c env Halways (Z.to_nat N - 1) (Z.to_nat N)
                  methodId url request 0 None s) as Hloop.
  edestruct Hloop as (s' & Hrun & Hf & Hsl); [rewrite Hmax; lia | lia |].
  rewrite Hrun.
  do 2 eexists. split; [reflexivity|]. split; [reflexivity|]. split; [reflexivity|].
  rewrite Hf, Hsl. split; [lia|].
  by replace (Z.of_nat (Z.to_nat N - 1)) with (N - 1) by lia.
Qed.

Lemma execute_always_timeout_witness :
  fetches (run_trace (@execute demo_host (client_with_attempts 4) (env_timeout 0)
                        "getHealth" (JObj []) s0)) = 4%nat
  ∧ sleeps (run_trace (@execute demo_host (client_with_attempts 4) (env_timeout 0)
                         "getHealth" (JObj []) s0)) = [1000; 2000; 4000].
Proof.
  destruct (@execute_always_timeout demo_host "key" None
              {| arg_timeout := None; arg_retryAttempts := Some 4; arg_debug := None |}
              (env_timeout 0) "getHealth" (JObj []) s0 4
              eq_refl ltac:(lia) ltac:(by eexists) (λ _, eq_refl))
    as (e & s' & Hrun & _ & _ & Hf & Hsl).
  unfold client_with_attempts, run_trace. rewrite Hrun.
  change (fetches (trace s') = 4%nat ∧ sleeps (trace s') = [1000; 2000; 4000]).
  rewrite Hf, Hsl. split; reflexivity.
Defined.

(** C3 (the claim fails on the code). A client made with
    [retryAttempts = 0] sends three requests, not none. And the sleep
    between two attempts is 1000 ms whatever [Math.random()] draws, where a
    jitter of 20% on the draw 0 would make it 800 ms. *)
Lemma execute_retry_claim_fails :
  fetches (run_trace (@execute demo_host (client_with_attempts 0) (env_timeout 0)
                        "getHealth" (JObj []) s0)) = 3%nat
  ∧ sleeps (run_trace (@execute demo_host (client_with_attempts 2) (env_timeout 0)
                         "getHealth" (JObj []) s0)) = [1000]
  ∧ sleeps (run_trace (@execute demo_host (client_with_attempts 2) (env_timeout (9 # 10))
                         "getHealth" (JObj []) s0)) = [1000]
  ∧ jittered (backoffMs 1) 0 = 800
  ∧ sleeps (run_trace (@execute demo_host (client_with_attempts 2) (env_timeout 0)
                         "getHealth" (JObj []) s0)) ≠ [jittered (backoffMs 1) 0].
Proof. vm_compute. repeat split. discriminate. Qed.

(** *** A successful call *)

(** What the loop returns is the [result] field of the body of some
    attempt. *)
Lemma execute_loop_payload `{Host} c env fuel methodId url request attempt lastError s
    payload s' :
  execute_loop fuel c env methodId url request attempt lastError s
    = Some (Return payload, s') →
  ∃ k response body,
    transport env k = Responded response ∧ ok response = true
    ∧ json response = inr (Some body)
    ∧ error body = None ∧ result body = Some payload.
Proof.
  revert attempt lastError s.
  induction fuel as [|fuel IH]; intros attempt lastError s Hrun.
  - cbn in Hrun. by destruct (attempt <? max_attempts (options c)).
  - rewrite execute_loop_unfold in Hrun.
    destruct (attempt <? max_attempts (options c)); [|done].
    destruct (try_attempt _ _ _ _ _ _ _) as [[v|e] s1] eqn:Htry.
    + injection Hrun as <- <-. exists (attempt + 1). by eapply try_attempt_payload.
    + destruct (_ || _); [done|]. by eapply IH.
Qed.

(** C1 (as the code has it). A call of [execute] that returns a payload
    returns the [result] field of the body of a response and leaves the
    store of entry objects as it was: every ledger reads after the call
    what it read before. The update rule of the claim is what
    [updateRateLimit] computes for the ledger it returns, when a caller
    applies it: the snapshot of the envelope if there is one, the entry of
    the method with its count incremented otherwise, or a new entry with
    count 1 and a window of 60000 ms. *)
Theorem execute_success_leaves_ledger `{Host} (c : McpClient) (env : Env)
    (methodId : string) (params : Json) (s : State) (payload : Json) (s' : State) :
  execute c env methodId params s = Some (Return payload, s') →
  store s' = store s
  ∧ (∀ (rateState : Ledger) m,
       entry rateState (store s') m = entry rateState (store s) m)
  ∧ (∃ k response body,
       transport env k = Responded response ∧ ok response = true
       ∧ json response = inr (Some body)
       ∧ error body = None ∧ result body = Some payload)
  ∧ (∀ now (rateState : Ledger) response st,
       wf rateState st →
       let '(newState, st') := updateRateLimit now methodId rateState response st in
       entry newState st' methodId =
         Some match metadata response ≫= rateLimit with
              | Some rl => {| count := limit rl - remaining rl;
                              resetTime := reset rl * 1000 |}
              | None =>
                  match entry rateState st methodId with
                  | Some e => {| count := count e + 1; resetTime := resetTime e |}
                  | None => {| count := 1; resetTime := now + 60000 |}
                  end
              end).
Proof.
  unfold execute. destruct (getMethod methodId) as [method|]; [|done].
  intros Hrun.
  assert (store s' = store s) as Hstore.
  { by eapply execute_loop_frame. }
  split; [done|]. split; [by rewrite Hstore|].
  split; [by eapply execute_loop_payload|].
  intros now rateState response st Hwf. by apply updateRateLimit_entry.
Qed.

Lemma execute_success_leaves_ledger_witness :
  ∃ s', @execute demo_host (client_with_attempts 3) (env_429_then_200 metered_response)
          "getHealth" (JObj []) {| store := store1; trace := [] |}
        = Some (Return (JStr "ok"), s')
    ∧ store s' = store1.
Proof.
  assert (∃ s', @execute demo_host (client_with_attempts 3)
                  (env_429_then_200 metered_response)
                  "getHealth" (JObj []) {| store := store1; trace := [] |}
                = Some (Return (JStr "ok"), s')) as [s' Hrun].
  { vm_compute. by eexists. }
  exists s'. split; [exact Hrun|].
  apply (@execute_success_leaves_ledger demo_host _ _ _ _ _ _ _ Hrun).
Defined.

(** C1 (the claim fails on the code). The transport answers 429 and then
    200 with an envelope that carries the snapshot
    [{remaining: 5, reset: 100, limit: 60}]. The call succeeds at the second
    attempt, and the entry of [getHealth] in a ledger that has one still
    reads [{count: 1, resetTime: 5000}], not [{count: 55, resetTime: 100000}];
    a ledger without an entry still has none. With an envelope without
    snapshot the count is still 1, not 2. *)
Lemma execute_ledger_claim_fails :
  let run body :=
    @execute demo_host (client_with_attempts 3) (env_429_then_200 body)
      "getHealth" (JObj []) {| store := store1; trace := [] |} in
  run_result (run metered_response) = Some (Return (JStr "ok"))
  ∧ fetches (run_trace (run metered_response)) = 2%nat
  ∧ entry ledger1 (run_store (run metered_response)) "getHealth"
    = Some {| count := 1; resetTime := 5000 |}
  ∧ entry ledger1 (run_store (run metered_response)) "getHealth"
    ≠ Some {| count := 55; resetTime := 100000 |}
  ∧ entry ∅ (run_store (run metered_response)) "getHealth" = None
  ∧ run_result (run plain_response) = Some (Return (JStr "ok"))
  ∧ entry ledger1 (run_store (run plain_response)) "getHealth"
    ≠ Some {| count := 2; resetTime := 5000 |}.
Proof. vm_compute. repeat split; discriminate. Qed.

(** A transport that answers 404: one attempt, and a response error that
    carries the status. *)
Example execute_404 :
  let run := @execute demo_host (client_with_attempts 3) env_404 "getHealth" (JObj []) s0 in
  run_result run
  = Some (Throw (new_McpResponseError "MCP responded with status 404: Not Found" (Some 404)))
  ∧ fetches (run_trace run) = 1%nat
  ∧ sleeps (run_trace run) = [].
Proof. vm_compute. done. Qed.

(** *** The convenience methods *)

(** C9 (as the code has it). Each of the eight convenience methods of the
    class is [execute] with a fixed method id and the parameters under the
    names the gateway expects; the encoding defaults to ['jsonParsed'] and
    the limit to 10. No method of the class is called [getBalance], and no
    convenience method sends the method id ['getBalance']; each sends a
    method id of the registry. *)
Theorem wrappers_shape_parameters `{Host} (c : McpClient) (env : Env) (s : State) :
  getNetworkStatus c env s = execute c env "getHealth" (JObj []) s
  ∧ (∀ cluster,
       getClusterStatus c env cluster s
       = execute c env "getClusterNodes" (JObj [("cluster", JStr cluster)]) s)
  ∧ (∀ a e,
       getAccountInfo c env a (Some e) s
       = execute c env "getAccountInfo"
           (JObj [("address", JStr a); ("encoding", JStr (encoding_string e))]) s)
  ∧ (∀ a,
       getAccountInfo c env a None s
       = execute c env "getAccountInfo"
           (JObj [("address", JStr a); ("encoding", JStr "jsonParsed")]) s)
  ∧ (∀ p e,
       getProgramData c env p (Some e) s
       = execute c env "getAccountInfo"
           (JObj [("address", JStr p); ("encoding", JStr (encoding_string e))]) s)
  ∧ (∀ p,
       getProgramData c env p None s
       = execute c env "getAccountInfo"
           (JObj [("address", JStr p); ("encoding", JStr "jsonParsed")]) s)
  ∧ (∀ sig,
       getTransaction c env sig s
       = execute c env "getTransaction" (JObj [("signature", JStr sig)]) s)
  ∧ (∀ o,
       getTokenAccounts c env o s
       = execute c env "getTokenAccounts" (JObj [("owner", JStr o)]) s)
  ∧ (∀ a l,
       getSignaturesForAddress c env a (Some l) s
       = execute c env "getSignaturesForAddress"
           (JObj [("address", JStr a); ("limit", JNum l)]) s)
  ∧ (∀ a,
       getSignaturesForAddress c env a None s
       = execute c env "getSignaturesForAddress"
           (JObj [("address", JStr a); ("limit", JNum 10)]) s)
  ∧ getVersion c env s = execute c env "getVersion" (JObj []) s
  ∧ (∀ w, wrapper_name w ≠ "getBalance")
  ∧ (∀ w, ∃ methodId params,
       invoke c env w s = execute c env methodId params s
       ∧ methodId ≠ "getBalance" ∧ is_Some (getMethod methodId)).
Proof.
  repeat apply conj; try reflexivity.
  - by intros [].
  - intros [| cluster | a e | p e | sig | o | a l |]; do 2 eexists;
      (split; [reflexivity|]); split; first [discriminate | by eexists].
Qed.

(** C9 (the claim fails on the code). The class has no method called
    [getBalance]. *)
Lemma no_getBalance_wrapper : ¬ ∃ w : Wrapper, wrapper_name w = "getBalance".
Proof. by intros [[] ?]. Qed.

(** * Further properties of the protocol client *)

(** ** Attempts and sleeps, for any transport *)

Lemma backoffMs_bounds k : 1 ≤ k → 1000 ≤ backoffMs k ≤ 10000.
Proof.
  intros Hk. unfold backoffMs.
  assert (1 ≤ 2 ^ (k - 1)) by (apply Z.pow_le_mono_r with (b := 0) (c := k - 1); lia).
  lia.
Qed.

Lemma execute_loop_schedule `{Host} c env fuel methodId url request attempt lastError s r s' :
  execute_loop fuel c env methodId url request attempt lastError s = Some (r, s') →
  ∃ n : nat,
    fetches (trace s') = (fetches (trace s) + n)%nat
    ∧ (n ≤ Z.to_nat (max_attempts (options c) - attempt))%nat
    ∧ (attempt < max_attempts (options c) → (1 ≤ n)%nat)
    ∧ sleeps (trace s')
      = sleeps (trace s) ++ (backoffMs <$> seqZ (attempt + 1) (Z.of_nat n - 1)).
Proof.
  revert attempt lastError s.
  induction fuel as [|fuel IH]; intros attempt lastError s Hrun.
  - cbn in Hrun. destruct (Z.ltb_spec attempt (max_attempts (options c))); [done|].
    injection Hrun as <- <-. exists 0%nat. rewrite Nat.add_0_r, app_nil_r.
    repeat split; lia.
  - rewrite execute_loop_unfold in Hrun.
    destruct (Z.ltb_spec attempt (max_attempts (options c))).
    2: { injection Hrun as <- <-. exists 0%nat. rewrite Nat.add_0_r, app_nil_r.
         repeat split; lia. }
    destruct (try_attempt _ _ _ _ _ _ _) as [[v|e] s1] eqn:Htry;
      apply try_attempt_effects in Htry as (_ & Hf & Hsl).
    { injection Hrun as <- <-. exists 1%nat. rewrite Hf, Hsl, app_nil_r.
      repeat split; lia. }
    destruct (negb (isRetryableError e)); cbn [orb] in Hrun.
    { injection Hrun as <- <-. exists 1%nat. rewrite Hf, Hsl, app_nil_r.
      repeat split; lia. }
    destruct (Z.geb_spec (attempt + 1) (max_attempts (options c))).
    { injection Hrun as <- <-. exists 1%nat. rewrite Hf, Hsl, app_nil_r.
      repeat split; lia. }
    apply IH in Hrun as (n & Hf' & Hn & Hpos & Hsl').
    specialize (Hpos ltac:(lia)).
    exists (S n). rewrite Hf', Hsl', fetches_emit, sleeps_emit, Hf, Hsl.
    assert (seqZ (attempt + 1) (Z.of_nat (S n) - 1)
            = (attempt + 1) :: seqZ (attempt + 1 + 1) (Z.of_nat n - 1)) as ->.
    { rewrite seqZ_cons by lia. f_equal. f_equal; lia. }
    rewrite <- List.app_assoc. cbn [is_fetch fmap list_fmap app].
    repeat split; lia.
Qed.

(** X1. Whatever the transport does, a call of [execute] sends at most
    [retryAttempts] requests, and at least one when the method is known and
    [retryAttempts] is positive; it sleeps between two attempts and never
    after the last one, [backoffMs k] after the attempt [k], each sleep
    between 1000 and 10000 ms. *)
Theorem execute_attempts_and_sleeps `{Host} (c : McpClient) (env : Env) (methodId : string)
    (params : Json) (s : State) (r : Completion Json) (s' : State) :
  execute c env methodId params s = Some (r, s') →
  ∃ n : nat,
    fetches (trace s') = (fetches (trace s) + n)%nat
    ∧ Z.of_nat n ≤ Z.max 0 (max_attempts (options c))
    ∧ (is_Some (getMethod methodId) → 1 ≤ max_attempts (options c) → (1 ≤ n)%nat)
    ∧ sleeps (trace s') = sleeps (trace s) ++ (backoffMs <$> seqZ 1 (Z.of_nat n - 1))
    ∧ Forall (λ ms, 1000 ≤ ms ≤ 10000) (backoffMs <$> seqZ 1 (Z.of_nat n - 1)).
Proof.
  unfold execute. destruct (getMethod methodId) as [method|].
  - intros (n & Hf & Hn & Hpos & Hsl)%execute_loop_schedule.
    exists n. repeat split; [done | lia | intros _ ?; apply Hpos; lia | done |].
    apply Forall_fmap, Forall_forall. intros k Hk%elem_of_seqZ. cbn.
    apply backoffMs_bounds. lia.
  - intros [= <- <-]. exists 0%nat. rewrite Nat.add_0_r, app_nil_r.
    repeat split; [lia | by intros [? [=]] | by constructor].
Qed.

Lemma execute_attempts_and_sleeps_witness :
  ∃ n : nat,
    fetches (run_trace (@execute demo_host (client_with_attempts 3)
                          (env_429_then_200 plain_response) "getHealth" (JObj []) s0))
    = n
    ∧ Z.of_nat n ≤ 3.
Proof.
  assert (∃ r s', @execute demo_host (client_with_attempts 3)
                    (env_429_then_200 plain_response) "getHealth" (JObj []) s0
                  = Some (r, s')) as (r & s' & Hrun).
  { vm_compute. by do 2 eexists. }
  destruct (@execute_attempts_and_sleeps demo_host _ _ _ _ _ _ _ Hrun)
    as (n & Hf & Hn & _).
  exists n. rewrite Hrun. split; [exact Hf | exact Hn].
Defined.

(** ** What is sent *)

Section Sent.
Context `{Host} (c : McpClient) (env : Env).

(** The events of an attempt: the debug line if debug is on, the request,
    and the debug line of the response if there is one to log. *)
Lemma try_attempt_trace methodId url request attempt s r s1 :
  try_attempt c env methodId url request attempt s = (r, s1) →
  ∃ rest,
    trace s1
    = trace s
      ++ (if debug (options c)
          then [Debug_request attempt (max_attempts (options c)) methodId url request]
          else [])
      ++ Fetch url ("Bearer " +:+ apiKey c) request :: rest
    ∧ Forall (λ ev, is_debug ev = true ∧ carries url ("Bearer " +:+ apiKey c) request ev) rest
    ∧ (debug (options c) = false → rest = []).
Proof.
  unfold try_attempt, executeWithTimeout.
  assert (∀ s0 : State,
            trace (emit (Fetch url ("Bearer " +:+ apiKey c) request)
                     (if debug (options c)
                      then emit (Debug_request attempt (max_attempts (options c))
                                   methodId url request) s0
                      else s0))
            = trace s0
              ++ (if debug (options c)
                  then [Debug_request attempt (max_attempts (options c)) methodId url request]
                  else [])
              ++ [Fetch url ("Bearer " +:+ apiKey c) request]) as Hsent.
  { intros s0. destruct (debug (options c)); cbn; [|done]. by rewrite <- List.app_assoc. }
  destruct (transport env attempt) as [|msg|response].
  - intros [= <- <-]. exists []. by rewrite Hsent.
  - intros [= <- <-]. exists []. by rewrite Hsent.
  - destruct (negb (ok response)); [intros [= <- <-]; exists []; by rewrite Hsent|].
    destruct (json response) as [msg|body]; [intros [= <- <-]; exists []; by rewrite Hsent|].
    destruct (validateMethodResponse body methodId) as [payload|e];
      [|intros [= <- <-]; exists []; by rewrite Hsent].
    destruct (debug (options c)) eqn:Hd; intros [= <- <-].
    + exists [Debug_response payload]. cbn. rewrite <- !List.app_assoc. cbn.
      split; [done|]. split; [|done]. by repeat constructor.
    + exists []. by rewrite Hsent.
Qed.

Lemma execute_loop_carries fuel methodId url request attempt lastError s r s' :
  execute_loop fuel c env methodId url request attempt lastError s = Some (r, s') →
  ∃ evs, trace s' = trace s ++ evs
    ∧ Forall (carries url ("Bearer " +:+ apiKey c) request) evs.
Proof.
  revert attempt lastError s.
  induction fuel as [|fuel IH]; intros attempt lastError s Hrun.
  - cbn in Hrun. destruct (attempt <? max_attempts (options c)); [done|].
    injection Hrun as <- <-. exists []. by rewrite app_nil_r.
  - rewrite execute_loop_unfold in Hrun.
    destruct (attempt <? max_attempts (options c)).
    2: { injection Hrun as <- <-. exists []. by rewrite app_nil_r. }
    destruct (try_attempt _ _ _ _ _ _ _) as [[v|e] s1] eqn:Htry;
      apply try_attempt_trace in Htry as (rest & Htr & Hrest & _).
    all: assert (Forall (carries url ("Bearer " +:+ apiKey c) request)
                   ((if debug (options c)
                     then [Debug_request (attempt + 1) (max_attempts (options c))
                             methodId url request]
                     else [])
                    ++ Fetch url ("Bearer " +:+ apiKey c) request :: rest)) as Hone
      by (apply Forall_app; split;
          [destruct (debug (options c)); by repeat constructor
          |constructor; [done|]; eapply Forall_impl; [exact Hrest|]; by intros ? [_ ?]]).
    { injection Hrun as <- <-. eauto. }
    destruct (_ || _).
    { injection Hrun as <- <-. eauto. }
    apply IH in Hrun as (evs & -> & Hevs). cbn. rewrite Htr.
    eexists. rewrite <- !List.app_assoc. split; [reflexivity|].
    rewrite List.app_assoc.
    apply Forall_app; split; [done|]. by constructor.
Qed.
End Sent.

(** X2. The request envelope is built once for a call: every request that
    [execute] sends, at the first attempt and at every retry, goes to the
    same url (the url of the client's endpoint, or of the default endpoint
    when the client's endpoint id is unknown, followed by [/rpc/] and the
    method id), with the bearer token of the client, and with the same body:
    the same request id, the same timestamp and the parameters of the
    caller. *)
Theorem execute_sends_one_envelope `{Host} (c : McpClient) (env : Env) (methodId : string)
    (args : Json) (s : State) (r : Completion Json) (s' : State) :
  execute c env methodId args s = Some (r, s') →
  ∃ evs, trace s' = trace s ++ evs
    ∧ ∀ u a b, Fetch u a b ∈ evs →
        u = url (default getDefaultEndpoint (getEndpoint (endpointId c)))
              +:+ "/rpc/" +:+ methodId
        ∧ a = "Bearer " +:+ apiKey c
        ∧ b = formatMcpRequest env args (apiKey c) None None
        ∧ params b = args
        ∧ request_id b = generateRequestId env
        ∧ timestamp (request_metadata b) = now env.
Proof.
  unfold execute. destruct (getMethod methodId) as [method|].
  - intros (evs & -> & Hevs)%execute_loop_carries. exists evs. split; [done|].
    intros u a b Hin. rewrite Forall_forall in Hevs.
    destruct (Hevs _ Hin) as (-> & -> & ->). done.
  - intros [= <- <-]. exists []. rewrite app_nil_r. split; [done|].
    intros u a b Hin. by apply elem_of_nil in Hin.
Qed.

Lemma execute_sends_one_envelope_witness :
  ∃ evs,
    run_trace (@execute demo_host (client_with_attempts 3) (env_timeout 0)
                 "getHealth" (JObj []) s0) = evs
    ∧ ∀ u a b, Fetch u a b ∈ evs →
        u = "https://mcp.lcq.gg/v1/rpc/getHealth" ∧ a = "Bearer key".
Proof.
  assert (∃ r s', @execute demo_host (client_with_attempts 3) (env_timeout 0)
                    "getHealth" (JObj []) s0 = Some (r, s')) as (r & s' & Hrun).
  { vm_compute. by do 2 eexists. }
  destruct (@execute_sends_one_envelope demo_host _ _ _ _ _ _ _ Hrun) as (evs & Htr & Hevs).
  exists evs. rewrite Hrun. split; [exact Htr|].
  intros u a b Hin. destruct (Hevs u a b Hin) as (-> & -> & _). split; reflexivity.
Defined.

(** X3. With debug on, the first thing a call for a known method logs is
    the request, and the logged request holds the API key of the client in
    its metadata: the mask [apiKey: '***'] that the code adds beside the
    fields of the request does not cover [metadata.apiKey]. *)
Theorem debug_log_holds_api_key `{Host} (c : McpClient) (env : Env) (methodId : string)
    (params : Json) (s : State) (r : Completion Json) (s' : State) :
  debug (options c) = true →
  is_Some (getMethod methodId) →
  1 ≤ max_attempts (options c) →
  execute c env methodId params s = Some (r, s') →
  ∃ b evs,
    trace s' = trace s
               ++ Debug_request 1 (max_attempts (options c)) methodId
                    (method_url c methodId) b :: evs
    ∧ meta_apiKey (request_metadata b) = apiKey c.
Proof.
  intros Hd [method Hm] HN. unfold execute. rewrite Hm.
  destruct (Z.to_nat (max_attempts (options c))) as [|fuel] eqn:Hfuel; [lia|].
  rewrite execute_loop_unfold.
  destruct (Z.ltb_spec 0 (max_attempts (options c))); [|lia].
  destruct (try_attempt _ _ _ _ _ _ _) as [[v|e] s1] eqn:Htry;
    apply try_attempt_trace in Htry as (rest & Htr & _); rewrite Hd in Htr.
  { intros [= <- <-]. do 2 eexists. split; [exact Htr|done]. }
  destruct (_ || _).
  { intros [= <- <-]. do 2 eexists. split; [exact Htr|done]. }
  intros (evs & -> & _)%execute_loop_carries. cbn. rewrite Htr.
  do 2 eexists. rewrite <- !List.app_assoc. split; [reflexivity|done].
Qed.

Lemma debug_log_holds_api_key_witness :
  ∃ b evs,
    run_trace (@execute demo_host (with_debug (client_with_attempts 1) true) (env_timeout 0)
                 "getHealth" (JObj []) s0)
    = Debug_request 1 1 "getHealth" "https://mcp.lcq.gg/v1/rpc/getHealth" b :: evs
    ∧ meta_apiKey (request_metadata b) = "key".
Proof.
  assert (∃ r s', @execute demo_host (with_debug (client_with_attempts 1) true)
                    (env_timeout 0) "getHealth" (JObj []) s0 = Some (r, s'))
    as (r & s' & Hrun).
  { vm_compute. by do 2 eexists. }
  destruct (@debug_log_holds_api_key demo_host
              (with_debug (client_with_attempts 1) true) (env_timeout 0)
              "getHealth" (JObj []) s0 r s'
              eq_refl ltac:(by eexists) ltac:(cbn; lia) Hrun) as (b & evs & Htr & Hkey).
  exists b, evs. rewrite Hrun. split; [exact Htr | exact Hkey].
Defined.

(** ** Debug mode *)

Section Debug.
Context `{Host} (c : McpClient) (env : Env).

(** Two states that differ by debug lines only. *)
Let same (s1 s2 : State) : Prop :=
  store s1 = store s2 ∧ without_debug (trace s1) = without_debug (trace s2).

Lemma without_debug_emit ev s :
  without_debug (trace (emit ev s))
  = without_debug (trace s) ++ (if is_debug ev then [] else [ev]).
Proof.
  unfold without_debug, emit; cbn. rewrite List.filter_app. cbn.
  by destruct (is_debug ev).
Qed.

Lemma same_emit ev s1 s2 : same s1 s2 → same (emit ev s1) (emit ev s2).
Proof. intros [Hst Htr]. split; [done|]. by rewrite !without_debug_emit, Htr. Qed.

Lemma same_emit_debug_l ev s1 s2 : is_debug ev = true → same s1 s2 → same (emit ev s1) s2.
Proof.
  intros Hev [Hst Htr]. split; [done|].
  by rewrite without_debug_emit, Hev, app_nil_r.
Qed.

Lemma try_attempt_debug methodId url request attempt s1 s2 :
  same s1 s2 →
  (try_attempt (with_debug c true) env methodId url request attempt s1).1
  = (try_attempt (with_debug c false) env methodId url request attempt s2).1
  ∧ same (try_attempt (with_debug c true) env methodId url request attempt s1).2
         (try_attempt (with_debug c false) env methodId url request attempt s2).2.
Proof.
  intros Hs. unfold try_attempt, executeWithTimeout. cbn [debug options with_debug apiKey].
  set (d := Debug_request _ _ _ _ _).
  pose proof (same_emit (Fetch url ("Bearer " +:+ apiKey c) request) _ _
                (same_emit_debug_l d s1 s2 eq_refl Hs)) as Hsent.
  change (timeout_error (with_debug c true)) with (timeout_error c).
  change (timeout_error (with_debug c false)) with (timeout_error c).
  destruct (transport env attempt) as [|msg|response]; [done..|].
  destruct (negb (ok response)); [done|].
  destruct (json response) as [msg|body]; [done|].
  destruct (validateMethodResponse body methodId) as [payload|e]; [|done].
  cbn. split; [done|]. by apply same_emit_debug_l.
Qed.

Lemma execute_loop_debug fuel methodId url request attempt lastError s1 s2 :
  same s1 s2 →
  match execute_loop fuel (with_debug c true) env methodId url request attempt lastError s1,
        execute_loop fuel (with_debug c false) env methodId url request attempt lastError s2
  with
  | Some (r1, s1'), Some (r2, s2') => r1 = r2 ∧ same s1' s2'
  | None, None => True
  | _, _ => False
  end.
Proof.
  revert attempt lastError s1 s2.
  induction fuel as [|fuel IH]; intros attempt lastError s1 s2 Hs.
  - cbn. by destruct (attempt <? max_attempts (options c)).
  - rewrite !execute_loop_unfold. cbn [max_attempts options with_debug].
    destruct (attempt <? max_attempts (options c)); [|done].
    pose proof (try_attempt_debug methodId url request (attempt + 1) s1 s2 Hs) as [Hr Hs'].
    destruct (try_attempt (with_debug c true) _ _ _ _ _ _) as [r1 s1'].
    destruct (try_attempt (with_debug c false) _ _ _ _ _ _) as [r2 s2'].
    cbn in Hr, Hs'. subst r2. destruct r1 as [v|e]; [done|].
    destruct (_ || _); [done|]. apply IH. by apply same_emit.
Qed.
End Debug.

(** X4. Debug mode only adds lines to the log: with debug on or off, a
    call ends with the same result or the same error, leaves the same
    store, and sends the same requests and sleeps the same delays in the
    same order. *)
Theorem debug_is_observational `{Host} (c : McpClient) (env : Env) (methodId : string)
    (params : Json) (s : State) :
  let on := execute (with_debug c true) env methodId params s in
  let off := execute (with_debug c false) env methodId params s in
  run_result on = run_result off
  ∧ run_store on = run_store off
  ∧ without_debug (run_trace on) = without_debug (run_trace off)
  ∧ (is_Some on ↔ is_Some off).
Proof.
  cbv zeta. unfold execute. destruct (getMethod methodId) as [method|]; [|done].
  cbn [max_attempts options with_debug endpointId apiKey].
  pose proof (execute_loop_debug c env (Z.to_nat (max_attempts (options c))) methodId
                (createMethodUrl (url (default getDefaultEndpoint (getEndpoint (endpointId c))))
                   methodId)
                (formatMcpRequest env params (apiKey c) None None) 0 None s s
                (conj eq_refl eq_refl)) as Hloop.
  destruct (execute_loop _ (with_debug c true) _ _ _ _ _ _ _) as [[r1 s1]|];
    destruct (execute_loop _ (with_debug c false) _ _ _ _ _ _ _) as [[r2 s2]|];
    try done.
  destruct Hloop as (-> & Hst & Htr). cbn. repeat split; try done; by eexists.
Qed.

(** ** The errors a call ends with *)

(** What an attempt throws is the timeout error, the [TypeError] of
    [fetch], a response error, or the [SyntaxError] of a body that is not
    JSON. *)
Lemma try_attempt_throws_shape c env methodId url request attempt s e s1 :
  try_attempt c env methodId url request attempt s = (Throw e, s1) →
  e = timeout_error c
  ∨ (∃ msg, e = new_TypeError msg)
  ∨ (∃ msg code, e = new_McpResponseError msg code)
  ∨ (∃ msg, e = new_SyntaxError msg).
Proof.
  unfold try_attempt, executeWithTimeout.
  destruct (transport env attempt) as [|msg|response].
  - intros [= <- _]. by left.
  - intros [= <- _]. right; left. by eexists.
  - destruct (negb (ok response)).
    { intros [= <- _]. right; right; left. by do 2 eexists. }
    destruct (json response) as [msg|body].
    { intros [= <- _]. do 3 right. by eexists. }
    destruct (validateMethodResponse body methodId) as [v|e'] eqn:Hv; [done|].
    intros [= <- _]. right; right; left.
    destruct body as [body|]; cbn in Hv.
    + destruct (error body).
      { injection Hv as <-. by do 2 eexists. }
      destruct (result body); [done|]. injection Hv as <-. by do 2 eexists.
    + injection Hv as <-. by do 2 eexists.
Qed.

Lemma handleMcpError_plain `{Host} cls nm msg :
  cls = Error ∨ cls = TypeError ∨ cls = SyntaxError →
  errorType (handleMcpError (Instance_ cls nm msg no_props)) = Some CONNECTION
  ∨ errorType (handleMcpError (Instance_ cls nm msg no_props)) = Some RESPONSE
  ∨ errorType (handleMcpError (Instance_ cls nm msg no_props)) = Some UNKNOWN.
Proof.
  intros Hcls. unfold handleMcpError.
  assert (instanceof (Instance_ cls nm msg no_props) McpError = false) as ->
    by (destruct Hcls as [-> | [-> | ->]]; reflexivity).
  destruct (is_network_error _); [by left|].
  destruct (is_fetch_error _); [by left|].
  destruct (is_json_error _); [by right; left|].
  by right; right.
Qed.

(** The error that [handleMcpError] makes of what an attempt throws. *)
Lemma handleMcpError_attempt_error `{Host} c e0 :
  e0 = timeout_error c
  ∨ (∃ msg, e0 = new_TypeError msg)
  ∨ (∃ msg code, e0 = new_McpResponseError msg code)
  ∨ (∃ msg, e0 = new_SyntaxError msg) →
  errorType (handleMcpError e0) = Some CONNECTION
  ∨ errorType (handleMcpError e0) = Some TIMEOUT
  ∨ errorType (handleMcpError e0) = Some RESPONSE
  ∨ errorType (handleMcpError e0) = Some UNKNOWN.
Proof.
  intros [-> | [[msg ->] | [(msg & code & ->) | [msg ->]]]].
  - right; left. reflexivity.
  - destruct (handleMcpError_plain TypeError "TypeError" msg) as [? | [? | ?]]; auto.
  - right; right; left. reflexivity.
  - destruct (handleMcpError_plain SyntaxError "SyntaxError" msg) as [? | [? | ?]]; auto.
Qed.

Lemma execute_loop_error_classes `{Host} c env fuel methodId url request attempt lastError
    s e s' :
  execute_loop fuel c env methodId url request attempt lastError s = Some (Throw e, s') →
  (∀ e0, lastError = Some e0 →
     e0 = timeout_error c
     ∨ (∃ msg, e0 = new_TypeError msg)
     ∨ (∃ msg code, e0 = new_McpResponseError msg code)
     ∨ (∃ msg, e0 = new_SyntaxError msg)) →
  errorType e = Some CONNECTION ∨ errorType e = Some TIMEOUT
  ∨ errorType e = Some RESPONSE ∨ errorType e = Some UNKNOWN.
Proof.
  assert (∀ lastError,
            (∀ e0, lastError = Some e0 →
               e0 = timeout_error c
               ∨ (∃ msg, e0 = new_TypeError msg)
               ∨ (∃ msg code, e0 = new_McpResponseError msg code)
               ∨ (∃ msg, e0 = new_SyntaxError msg)) →
            let e := handleMcpError (default (new_Error "Unknown MCP error") lastError) in
            errorType e = Some CONNECTION ∨ errorType e = Some TIMEOUT
            ∨ errorType e = Some RESPONSE ∨ errorType e = Some UNKNOWN) as Hfail.
  { intros [e0|] Hl; cbn [default].
    - by eapply handleMcpError_attempt_error, Hl.
    - do 3 right. reflexivity. }
  revert attempt lastError s.
  induction fuel as [|fuel IH]; intros attempt lastError s Hrun Hlast.
  - cbn in Hrun. destruct (attempt <? max_attempts (options c)); [done|].
    injection Hrun as <- <-. by apply Hfail.
  - rewrite execute_loop_unfold in Hrun.
    destruct (attempt <? max_attempts (options c)).
    2: { injection Hrun as <- <-. by apply Hfail. }
    destruct (try_attempt _ _ _ _ _ _ _) as [[v|e0] s1] eqn:Htry; [done|].
    apply try_attempt_throws_shape in Htry.
    destruct (_ || _).
    { injection Hrun as <- <-. by eapply handleMcpError_attempt_error. }
    eapply IH; [exact Hrun|]. by intros ? [= <-].
Qed.

(** X5. The error a call of [execute] ends with is always one of the
    classes of [models.ts], and never an auth error or a rate-limit error:
    [executeWithTimeout] wraps every answer that is not ok in a response
    error, which [handleMcpError] returns as it is. *)
Theorem execute_error_classes `{Host} (c : McpClient) (env : Env) (methodId : string)
    (params : Json) (s : State) (e : Thrown) (s' : State) :
  execute c env methodId params s = Some (Throw e, s') →
  instanceof e McpError = true
  ∧ (errorType e = Some REQUEST ∨ errorType e = Some CONNECTION
     ∨ errorType e = Some TIMEOUT ∨ errorType e = Some RESPONSE
     ∨ errorType e = Some UNKNOWN)
  ∧ errorType e ≠ Some AUTH
  ∧ errorType e ≠ Some RATE_LIMIT.
Proof.
  intros Hrun.
  assert (errorType e = Some REQUEST ∨ errorType e = Some CONNECTION
          ∨ errorType e = Some TIMEOUT ∨ errorType e = Some RESPONSE
          ∨ errorType e = Some UNKNOWN) as Hcls.
  { unfold execute in Hrun. destruct (getMethod methodId) as [method|].
    - right. by eapply execute_loop_error_classes.
    - injection Hrun as <- <-. by left. }
  split; [|split; [done|]].
  - destruct e as [cls nm msg p | nm msg p]; cbn in Hcls.
    + destruct cls; cbn in *; try reflexivity;
        destruct Hcls as [? | [? | [? | [? | ?]]]]; discriminate.
    + destruct Hcls as [? | [? | [? | [? | ?]]]]; discriminate.
  - split; intros Heq; rewrite Heq in Hcls;
      destruct Hcls as [? | [? | [? | [? | ?]]]]; discriminate.
Qed.

Lemma execute_error_classes_witness :
  ∃ e s', @execute demo_host (client_with_attempts 3) (env_status 401 "Unauthorized")
            "getHealth" (JObj []) s0 = Some (Throw e, s')
    ∧ errorType e = Some RESPONSE
    ∧ errorType e ≠ Some AUTH.
Proof.
  assert (∃ e s', @execute demo_host (client_with_attempts 3) (env_status 401 "Unauthorized")
                    "getHealth" (JObj []) s0 = Some (Throw e, s')
                  ∧ errorType e = Some RESPONSE) as (e & s' & Hrun & Hty).
  { vm_compute. by do 2 eexists. }
  exists e, s'. split; [exact Hrun|]. split; [exact Hty|].
  apply (@execute_error_classes demo_host _ _ _ _ _ _ _ Hrun).
Defined.

(** X6. When the first answer has a status that is not ok and not one of
    408, 429, 500, 502, 503, 504 (401, 403 and 404 for instance), the call
    ends after this one attempt, without a sleep, with a response error
    that carries the status and the text of the answer. *)
Theorem execute_fails_fast_on_status `{Host} (c : McpClient) (env : Env) (methodId : string)
    (params : Json) (s : State) (response : HttpResponse) :
  is_Some (getMethod methodId) →
  1 ≤ max_attempts (options c) →
  transport env 1 = Responded response →
  ok response = false →
  response_status response ∉ [408; 429; 500; 502; 503; 504] →
  ∃ s', execute c env methodId params s
        = Some (Throw (new_McpResponseError
                         ("MCP responded with status " +:+ pretty (response_status response)
                            +:+ ": " +:+ text response)
                         (Some (response_status response))), s')
    ∧ fetches (trace s') = S (fetches (trace s))
    ∧ sleeps (trace s') = sleeps (trace s).
Proof.
  intros [method Hm] HN Htr Hok Hst. unfold execute. rewrite Hm.
  destruct (Z.to_nat (max_attempts (options c))) as [|fuel] eqn:Hfuel; [lia|].
  rewrite execute_loop_unfold.
  destruct (Z.ltb_spec 0 (max_attempts (options c))); [|lia].
  destruct (try_attempt _ _ _ _ _ _ _) as [r s1] eqn:Htry.
  pose proof (try_attempt_effects _ _ _ _ _ _ _ _ _ Htry) as (_ & Hf & Hsl).
  unfold try_attempt, executeWithTimeout in Htry.
  change (0 + 1) with 1 in Htry. rewrite Htr, Hok in Htry. cbn in Htry.
  injection Htry as <- <-.
  rewrite isRetryableError_response, (bool_decide_eq_false_2 _ Hst). cbn.
  by eexists.
Qed.

Lemma execute_fails_fast_on_status_witness :
  ∃ s', @execute demo_host (client_with_attempts 3) (env_status 403 "Forbidden")
          "getHealth" (JObj []) s0
        = Some (Throw (new_McpResponseError "MCP responded with status 403: Forbidden"
                         (Some 403)), s')
    ∧ fetches (trace s') = 1%nat.
Proof.
  destruct (@execute_fails_fast_on_status demo_host (client_with_attempts 3)
              (env_status 403 "Forbidden") "getHealth" (JObj []) s0
              {| response_status := 403; text := "Forbidden";
                 json := inl "Unexpected token in JSON at position 0" |}
              ltac:(by eexists) ltac:(cbn; lia) eq_refl eq_refl
              ltac:(intros Hin;
                    repeat (apply elem_of_cons in Hin as [Hin|Hin]; [discriminate|]);
                    by apply elem_of_nil in Hin))
    as (s' & Hrun & Hf & _).
  exists s'. split; [exact Hrun | exact Hf].
Defined.

(** X7. A client made with a negative [retryAttempts] sends nothing: for a
    known method, the call ends at once with the generic error
    "MCP error: Unknown MCP error", whatever the transport would answer. *)
Theorem execute_negative_attempts `{Host} (apiKey : string) (endpointId : option string)
    (opts : OptionsArg) (env : Env) (methodId : string) (params : Json) (s : State)
    (N : Z) :
  arg_retryAttempts opts = Some N →
  N < 0 →
  is_Some (getMethod methodId) →
  execute (new_McpClient apiKey endpointId (Some opts)) env methodId params s
  = Some (Throw (new_McpError "MCP error: Unknown MCP error"), s).
Proof.
  intros Hopts HN [method Hm]. unfold execute. rewrite Hm.
  assert (max_attempts (options (new_McpClient apiKey endpointId (Some opts))) = N) as Hmax.
  { cbn. rewrite Hopts. cbn. destruct (Z.eqb_spec N 0); [lia|done]. }
  remember (new_McpClient apiKey endpointId (Some opts)) as c.
  rewrite Hmax. destruct (Z.to_nat N) as [|fuel] eqn:Hfuel; [|lia].
  cbn [execute_loop]. rewrite Hmax. destruct (Z.ltb_spec 0 N); [lia|]. reflexivity.
Qed.

Lemma execute_negative_attempts_witness :
  @execute demo_host (client_with_attempts (-1)) (env_429_then_200 plain_response)
    "getHealth" (JObj []) s0
  = Some (Throw (new_McpError "MCP error: Unknown MCP error"), s0).
Proof.
  apply (@execute_negative_attempts demo_host "key" None
           {| arg_timeout := None; arg_retryAttempts := Some (-1); arg_debug := None |}
           (env_429_then_200 plain_response) "getHealth" (JObj []) s0 (-1)
           eq_refl ltac:(lia) ltac:(by eexists)).
Defined.

Lemma handleMcpError_instance `{Host} failure :
  instanceof (handleMcpError failure) McpError = true.
Proof.
  unfold handleMcpError.
  destruct (instanceof failure McpError) eqn:Hi; [done|].
  destruct (is_network_error failure); [done|].
  destruct (is_fetch_error failure); [done|].
  destruct (is_json_error failure); [done|].
  destruct (http_status failure) as [st|]; [|done].
  destruct ((st =? 401) || (st =? 403)); [done|].
  by destruct (st =? 429).
Qed.

(** X8. [handleMcpError] always returns an instance of [McpError], so
    classifying twice is classifying once. *)
Theorem handleMcpError_idempotent `{Host} (failure : Thrown) :
  instanceof (handleMcpError failure) McpError = true
  ∧ handleMcpError (handleMcpError failure) = handleMcpError failure.
Proof.
  pose proof (handleMcpError_instance failure) as Hinst.
  split; [done|]. unfold handleMcpError at 1. by rewrite Hinst.
Qed.

(** * Further properties of the rate-limit ledger *)

(** X9. After an update from a snapshot [{remaining, reset, limit}],
    [checkRateLimit] allows the method exactly when the time is past
    [reset * 1000] or [limit - remaining] is below 60, whatever the ledger
    held before: with a gateway limit above 60, the check refuses calls
    that the gateway still grants. *)
Theorem checkRateLimit_after_snapshot (now now' : Z) (methodId : string)
    (rateState : Ledger) (response : McpResponse) (st : Store) (rl : RateLimit) :
  metadata response ≫= rateLimit = Some rl →
  checkRateLimit now' methodId
    (updateRateLimit now methodId rateState response st).1
    (updateRateLimit now methodId rateState response st).2
  = (now' >? reset rl * 1000) || (limit rl - remaining rl <? 60).
Proof.
  intros Hrl. unfold updateRateLimit, checkRateLimit, alloc, entry. rewrite Hrl. cbn.
  rewrite lookup_insert_eq. cbn. rewrite lookup_insert_eq. cbn.
  by destruct (now' >? reset rl * 1000).
Qed.

(** The gateway grants 120 calls and 50 remain; the check refuses. *)
Lemma checkRateLimit_after_snapshot_witness :
  checkRateLimit 1000 "getBalance"
    (updateRateLimit 500 "getBalance" ∅ granted_response ∅).1
    (updateRateLimit 500 "getBalance" ∅ granted_response ∅).2
  = false.
Proof.
  rewrite (checkRateLimit_after_snapshot 500 1000 "getBalance" ∅ granted_response ∅
             {| remaining := 50; reset := 100; limit := 120 |} eq_refl).
  reflexivity.
Defined.

Lemma updateRateLimit_each_counts times methodId (rateState : Ledger) response
    (st : Store) e :
  metadata response ≫= rateLimit = None →
  entry rateState st methodId = Some e →
  entry (updateRateLimit_each times methodId rateState response st).1
        (updateRateLimit_each times methodId rateState response st).2 methodId
  = Some {| count := count e + Z.of_nat (length times); resetTime := resetTime e |}.
Proof.
  intros Hmeta. revert rateState st e.
  induction times as [|now times IH]; intros rateState st e He.
  - cbn. rewrite He. destruct e. cbn. do 2 f_equal. lia.
  - cbn [updateRateLimit_each].
    pose proof (updateRateLimit_increments_in_place now methodId rateState response st e
                  Hmeta He) as Hstep.
    destruct (updateRateLimit now methodId rateState response st) as [L1 st1].
    destruct Hstep as [-> He1].
    rewrite (IH _ _ _ He1). cbn. do 2 f_equal. lia.
Qed.

(** X10. A caller that records its calls with [updateRateLimit], without
    snapshots, in a ledger that had no entry for the method, whose id is
    not the name of a member inherited from [Object.prototype]: after the
    calls the entry counts them all, and its reset time is still the one
    that the first call set, 60000 ms after it. The window is never renewed,
    so once it is over [checkRateLimit] allows the method whatever the
    count; until then it allows it while fewer than 60 calls are counted. *)
Theorem heuristic_window_is_never_renewed (first : Z) (later : list Z) (now : Z)
    (methodId : string) (rateState : Ledger) (response : McpResponse) (st : Store) :
  inherited methodId = false →
  metadata response ≫= rateLimit = None →
  rateState !! methodId = None →
  let after := updateRateLimit_each (first :: later) methodId rateState response st in
  entry after.1 after.2 methodId
  = Some {| count := 1 + Z.of_nat (length later); resetTime := first + 60000 |}
  ∧ checkRateLimit now methodId after.1 after.2
    = (now >? first + 60000) || (1 + Z.of_nat (length later) <? 60).
Proof.
  intros _ Hmeta Hnone. cbv zeta.
  assert (entry (updateRateLimit_each (first :: later) methodId rateState response st).1
                (updateRateLimit_each (first :: later) methodId rateState response st).2
                methodId
          = Some {| count := 1 + Z.of_nat (length later); resetTime := first + 60000 |})
    as Hentry.
  { cbn [updateRateLimit_each].
    assert (entry (updateRateLimit first methodId rateState response st).1
                  (updateRateLimit first methodId rateState response st).2 methodId
            = Some {| count := 1; resetTime := first + 60000 |}) as Hfirst.
    { unfold updateRateLimit, alloc, entry. rewrite Hmeta, Hnone. cbn.
      rewrite lookup_insert_eq. cbn. by rewrite lookup_insert_eq. }
    destruct (updateRateLimit first methodId rateState response st) as [L1 st1].
    by rewrite (updateRateLimit_each_counts later methodId L1 response st1 _ Hmeta Hfirst). }
  split; [done|]. unfold checkRateLimit. rewrite Hentry. cbn.
  by destruct (now >? first + 60000).
Qed.

Lemma heuristic_window_is_never_renewed_witness :
  inherited "getHealth" = false
  ∧ entry (updateRateLimit_each [1000; 2000; 900000] "getHealth" ∅ plain_response ∅).1
        (updateRateLimit_each [1000; 2000; 900000] "getHealth" ∅ plain_response ∅).2
        "getHealth"
  = Some {| count := 3; resetTime := 61000 |}.
Proof.
  split; [reflexivity|].
  apply (heuristic_window_is_never_renewed 1000 [2000; 900000] 0 "getHealth" ∅
           plain_response ∅ eq_refl eq_refl (lookup_empty "getHealth")).
Defined.

Lemma wf_alloc (rateState : Ledger) (st : Store) methodId e :
  wf rateState st → wf (<[methodId := fresh (dom st)]> rateState) (<[fresh (dom st) := e]> st).
Proof.
  intros Hwf m r. rewrite lookup_insert. case_decide as Hm.
  - intros [= <-]. rewrite lookup_insert_eq. by eexists.
  - intros Hr. destruct (Hwf _ _ Hr) as [e' He'].
    rewrite lookup_insert_ne; [by eexists|].
    intros <-. by apply (is_fresh (dom st)), elem_of_dom.
Qed.

Lemma separate_alloc (rateState : Ledger) (st : Store) methodId :
  wf rateState st → separate rateState →
  separate (<[methodId := fresh (dom st)]> rateState).
Proof.
  intros Hwf Hsep m1 m2 r. rewrite !lookup_insert.
  assert (∀ m, rateState !! m ≠ Some (fresh (dom st))) as Hfresh.
  { intros m Hm. destruct (Hwf _ _ Hm) as [e He].
    by apply (is_fresh (dom st)), elem_of_dom. }
  repeat case_decide; subst.
  - done.
  - intros [= <-] Hr. by destruct (Hfresh m2).
  - intros Hr [= <-]. by destruct (Hfresh m1).
  - apply Hsep.
Qed.

(** X11. In a ledger whose entries are all in the store and are not
    shared between methods, an update for one method, whose id is not the
    name of a member inherited from [Object.prototype], leaves the entry of
    every other method as it was, in the ledger that is returned; and the
    returned ledger again has all its entries in the store, none shared. *)
Theorem updateRateLimit_other_methods (now : Z) (methodId : string) (rateState : Ledger)
    (response : McpResponse) (st : Store) :
  inherited methodId = false →
  wf rateState st →
  separate rateState →
  let after := updateRateLimit now methodId rateState response st in
  (∀ other, other ≠ methodId →
     entry after.1 after.2 other = entry rateState st other)
  ∧ wf after.1 after.2
  ∧ separate after.1.
Proof.
  intros _ Hwf Hsep. cbv zeta.
  assert (∀ e other, other ≠ methodId →
            entry (<[methodId := fresh (dom st)]> rateState) (<[fresh (dom st) := e]> st) other
            = entry rateState st other) as Hnew.
  { intros e other Hne. unfold entry. rewrite lookup_insert_ne by done.
    destruct (rateState !! other) as [r|] eqn:Hr; [|done]. cbn.
    apply lookup_insert_ne. intros <-. destruct (Hwf _ _ Hr) as [e' He'].
    by apply (is_fresh (dom st)), elem_of_dom. }
  unfold updateRateLimit, alloc.
  destruct (metadata response ≫= rateLimit) as [rl|]; cbn.
  { split; [by apply Hnew|]. split; [by apply wf_alloc | by apply separate_alloc]. }
  destruct (rateState !! methodId) as [r|] eqn:Hr; cbn.
  - split; [|split; [|done]].
    + intros other Hne. unfold entry.
      destruct (rateState !! other) as [r'|] eqn:Hr'; [|done]. cbn.
      apply lookup_alter_ne. intros <-. apply Hne. by eapply Hsep.
    + intros m r' Hm. apply lookup_alter_is_Some. by eapply Hwf.
  - split; [by apply Hnew|]. split; [by apply wf_alloc | by apply separate_alloc].
Qed.

Lemma ledger2_wf : wf ledger2 store2.
Proof.
  intros m r. unfold ledger2, ledger1, store2, store1.
  rewrite lookup_insert. case_decide.
  - intros [= <-]. rewrite lookup_insert_eq. by eexists.
  - rewrite lookup_singleton. case_decide; [|done].
    intros [= <-]. rewrite lookup_insert_ne by done. rewrite lookup_singleton_eq. by eexists.
Defined.

Lemma ledger2_separate : separate ledger2.
Proof.
  intros m1 m2 r. unfold ledger2, ledger1.
  rewrite !lookup_insert, !lookup_singleton.
  repeat case_decide; subst; try done; intros [= <-] [=].
Defined.

Lemma updateRateLimit_other_methods_witness :
  inherited "getHealth" = false
  ∧ entry (updateRateLimit 1000 "getHealth" ledger2 plain_response store2).1
        (updateRateLimit 1000 "getHealth" ledger2 plain_response store2).2 "getVersion"
  = Some {| count := 7; resetTime := 9000 |}.
Proof.
  split; [reflexivity|].
  destruct (updateRateLimit_other_methods 1000 "getHealth" ledger2 plain_response store2
              eq_refl ledger2_wf ledger2_separate) as (Hother & _).
  rewrite (Hother "getVersion" ltac:(discriminate)). reflexivity.
Defined.

(** * Further properties of the retry-delay helper *)

Lemma jittered_bounds (delay : Z) (random : Q) :
  0 ≤ delay → (0 <= random)%Q → (random < 1)%Q →
  0 ≤ jittered delay random
  ∧ 5 * jittered delay random ≤ 6 * delay
  ∧ 4 * delay < 5 * jittered delay random + 5.
Proof.
  intros Hd H0 H1. unfold jittered, jitter.
  set (x := (inject_Z delay + inject_Z delay * (2 # 10) * (random * 2 - 1))%Q).
  pose proof (Qfloor_le x) as Hle. pose proof (Qlt_floor x) as Hlt.
  assert (0 <= inject_Z delay)%Q as Hd' by (rewrite <- (Zle_Qle 0); lia).
  assert ((8 # 10) * inject_Z delay <= x)%Q as Hlo by (subst x; nra).
  assert (x <= (12 # 10) * inject_Z delay)%Q as Hhi by (subst x; nra).
  assert (inject_Z (5 * Qfloor x) <= inject_Z (6 * delay))%Q as H5.
  { rewrite !inject_Z_mult. change (inject_Z 5) with 5%Q. change (inject_Z 6) with 6%Q. lra. }
  assert (inject_Z (4 * delay) < inject_Z (5 * Qfloor x + 5))%Q as H4.
  { rewrite inject_Z_plus, !inject_Z_mult. rewrite inject_Z_plus in Hlt.
    change (inject_Z 5) with 5%Q. change (inject_Z 4) with 4%Q.
    change (inject_Z 1) with 1%Q in Hlt. lra. }
  rewrite <- Zle_Qle in H5. rewrite <- Zlt_Qlt in H4. lia.
Qed.

(** X12. [getRetryDelay] gives no delay exactly when the attempt number
    has reached [maxAttempts]. Otherwise, for a draw of [Math.random()] in
    the interval from 0 to 1 and delays that are not negative, the delay it
    gives is within 20% of [min(baseDelay * 2^attempt, maxDelay)] (rounded
    down to an integer), so never negative and never above 1.2 times
    [maxDelay]. *)
Theorem getRetryDelay_bounds (random : Q) (attempt maxAttempts : Z)
    (baseDelay maxDelay : option Z) :
  (0 <= random)%Q → (random < 1)%Q →
  0 ≤ attempt →
  0 ≤ default 1000 baseDelay →
  0 ≤ default 30000 maxDelay →
  (getRetryDelay random attempt maxAttempts baseDelay maxDelay = None
   ↔ maxAttempts ≤ attempt)
  ∧ ∀ d, getRetryDelay random attempt maxAttempts baseDelay maxDelay = Some d →
      let delay := Z.min (default 1000 baseDelay * 2 ^ attempt) (default 30000 maxDelay) in
      attempt < maxAttempts
      ∧ 0 ≤ d
      ∧ 5 * d ≤ 6 * delay
      ∧ 4 * delay < 5 * d + 5
      ∧ 5 * d ≤ 6 * default 30000 maxDelay.
Proof.
  intros H0 H1 Ha Hb Hm. unfold getRetryDelay.
  destruct (Z.geb_spec attempt maxAttempts).
  - split; [split; [lia|done]|done].
  - split; [split; [done|lia]|].
    intros d [= <-]. cbv zeta.
    assert (0 ≤ 2 ^ attempt) by (apply Z.pow_nonneg; lia).
    destruct (jittered_bounds
                (Z.min (default 1000 baseDelay * 2 ^ attempt) (default 30000 maxDelay))
                random ltac:(nia) H0 H1) as (? & ? & ?).
    repeat split; lia.
Qed.

Lemma getRetryDelay_bounds_witness :
  ∃ d, getRetryDelay (1 # 4) 2 5 None None = Some d ∧ 0 ≤ d ∧ 5 * d ≤ 6 * 4000.
Proof.
  destruct (getRetryDelay_bounds (1 # 4) 2 5 None None
              ltac:(done) ltac:(done) ltac:(lia) ltac:(cbn; lia) ltac:(cbn; lia))
    as [_ Hd].
  exists 3600. split; [reflexivity|].
  destruct (Hd 3600 eq_refl) as (_ & ? & ? & _). split; assumption.
Defined.

(** * Further properties of the registry and of the session state *)

Lemma find_unique {A} (key : A → string) (l : list A) (id : string) (x : A) :
  NoDup (key <$> l) →
  List.find (λ y, String.eqb (key y) id) l = Some x ↔ x ∈ l ∧ key x = id.
Proof.
  induction l as [|y l IH]; intros Hnd; cbn.
  - split; [done|]. intros [Hin _]. by apply elem_of_nil in Hin.
  - apply NoDup_cons in Hnd as [Hy Hnd].
    destruct (String.eqb_spec (key y) id) as [Heq|Hne].
    + split.
      * intros [= <-]. split; [apply elem_of_cons; by left|done].
      * intros [[-> | Hin]%elem_of_cons Hk]; [done|].
        destruct Hy. rewrite Heq, <- Hk. by apply list_elem_of_fmap_2.
    + rewrite (IH Hnd). split.
      * intros [Hin Hk]. split; [apply elem_of_cons; by right|done].
      * intros [[-> | Hin]%elem_of_cons Hk]; [done|]. by split.
Qed.

(** X13. The method ids of the registry are distinct, and so are the
    endpoint ids: [getMethod] and [getEndpoint] return a descriptor exactly
    when the table has one with the identifier asked for, and that
    descriptor is the only one. One endpoint is flagged as the default
    one, and [getDefaultEndpoint] returns it. *)
Theorem registry_lookups (id : string) :
  (∀ m, getMethod id = Some m ↔ m ∈ methods mcpConfig ∧ method_id m = id)
  ∧ (∀ m1 m2, m1 ∈ methods mcpConfig → m2 ∈ methods mcpConfig →
       method_id m1 = method_id m2 → m1 = m2)
  ∧ (∀ ep, getEndpoint id = Some ep ↔ ep ∈ endpoints mcpConfig ∧ endpoint_id ep = id)
  ∧ (∀ ep, ep ∈ endpoints mcpConfig →
       (isDefault ep = Some true ↔ ep = getDefaultEndpoint)).
Proof.
  assert (NoDup (method_id <$> methods mcpConfig)) as Hm
    by (apply (bool_decide_unpack _); vm_compute; exact I).
  assert (NoDup (endpoint_id <$> endpoints mcpConfig)) as He
    by (apply (bool_decide_unpack _); vm_compute; exact I).
  split; [|split; [|split]].
  - intros m. by apply find_unique.
  - intros m1 m2 H1 H2 Heq.
    assert (getMethod (method_id m1) = Some m1) as G1 by (by apply find_unique).
    assert (getMethod (method_id m1) = Some m2) as G2 by (by apply find_unique).
    congruence.
  - intros ep. by apply find_unique.
  - intros ep Hin. cbn in Hin.
    repeat (apply elem_of_cons in Hin as [-> | Hin]; [by split|]).
    by apply elem_of_nil in Hin.
Qed.

(** The requests of a call go to [method_url] with the key of the client. *)
Lemma execute_fetches `{Host} c env methodId params s r s' :
  execute c env methodId params s = Some (r, s') →
  ∃ evs, trace s' = trace s ++ evs
    ∧ ∀ u a b, Fetch u a b ∈ evs →
        u = method_url c methodId
        ∧ a = "Bearer " +:+ apiKey c
        ∧ meta_apiKey (request_metadata b) = apiKey c.
Proof.
  unfold execute. destruct (getMethod methodId) as [method|].
  - intros (evs & -> & Hevs)%execute_loop_carries. exists evs. split; [done|].
    intros u a b Hin. rewrite Forall_forall in Hevs.
    destruct (Hevs _ Hin) as (-> & -> & ->). done.
  - intros [= <- <-]. exists []. rewrite app_nil_r. split; [done|].
    intros u a b Hin. by apply elem_of_nil in Hin.
Qed.

(** X14. [setEndpoint] refuses an endpoint id that the table does not have
    with a plain [Error] (not one of the classes of [models.ts]). For an id
    of the table it keeps the key and the options, and every request of a
    later call goes to the url of that endpoint, followed by [/rpc/] and
    the method id. *)
Theorem setEndpoint_takes_effect `{Host} (c : McpClient) (id : string) :
  (getEndpoint id = None →
     setEndpoint c id = Throw (new_Error ("Unknown MCP endpoint: " +:+ id))
     ∧ instanceof (new_Error ("Unknown MCP endpoint: " +:+ id)) McpError = false)
  ∧ (∀ ep, getEndpoint id = Some ep →
       ∃ c', setEndpoint c id = Return c'
         ∧ endpointId c' = id ∧ apiKey c' = apiKey c ∧ options c' = options c
         ∧ ∀ env methodId params s r s',
             execute c' env methodId params s = Some (r, s') →
             ∃ evs, trace s' = trace s ++ evs
               ∧ ∀ u a b, Fetch u a b ∈ evs → u = url ep +:+ "/rpc/" +:+ methodId).
Proof.
  unfold setEndpoint. split.
  - by intros ->.
  - intros ep Hep. rewrite Hep. eexists. split; [reflexivity|]. cbn.
    repeat split.
    intros env methodId params s r s' (evs & Htr & Hevs)%execute_fetches.
    exists evs. split; [done|]. intros u a b Hin.
    destruct (Hevs u a b Hin) as (-> & _). unfold method_url. cbn [endpointId].
    by rewrite Hep.
Qed.

Lemma setEndpoint_takes_effect_witness :
  setEndpoint (client_with_attempts 3) "staging"
  = Throw (new_Error "Unknown MCP endpoint: staging")
  ∧ ∃ c', setEndpoint (client_with_attempts 3) "local-development" = Return c'
      ∧ endpointId c' = "local-development".
Proof.
  destruct (@setEndpoint_takes_effect demo_host (client_with_attempts 3) "staging")
    as [Hunknown _].
  destruct (@setEndpoint_takes_effect demo_host (client_with_attempts 3) "local-development")
    as [_ Hknown].
  split; [apply Hunknown; reflexivity|].
  destruct (Hknown _ eq_refl) as (c' & Hset & Hid & _).
  exists c'. split; [exact Hset | exact Hid].
Defined.

(** X15. The constructor does not check the endpoint id: for an id that
    the table does not have, the client is made all the same, it keeps the
    unknown id, and the requests of its calls go to the default endpoint. *)
Theorem constructor_falls_back_to_default `{Host} (key id : string)
    (opts : option OptionsArg) (env : Env) (methodId : string) (params : Json)
    (s : State) (r : Completion Json) (s' : State) :
  id ≠ "" →
  getEndpoint id = None →
  execute (new_McpClient key (Some id) opts) env methodId params s = Some (r, s') →
  endpointId (new_McpClient key (Some id) opts) = id
  ∧ ∃ evs, trace s' = trace s ++ evs
      ∧ ∀ u a b, Fetch u a b ∈ evs → u = "https://mcp.lcq.gg/v1/rpc/" +:+ methodId.
Proof.
  intros Hid Hnone Hrun.
  assert (endpointId (new_McpClient key (Some id) opts) = id) as Hkeep.
  { cbn. by destruct (String.eqb_spec id ""). }
  split; [done|].
  apply execute_fetches in Hrun as (evs & Htr & Hevs).
  exists evs. split; [done|]. intros u a b Hin.
  destruct (Hevs u a b Hin) as (-> & _). unfold method_url. by rewrite Hkeep, Hnone.
Qed.

Lemma constructor_falls_back_to_default_witness :
  ∃ evs,
    run_trace (@execute demo_host (new_McpClient "key" (Some "staging") None) env_404
                 "getVersion" (JObj []) s0) = evs
    ∧ ∀ u a b, Fetch u a b ∈ evs → u = "https://mcp.lcq.gg/v1/rpc/getVersion".
Proof.
  assert (∃ r s', @execute demo_host (new_McpClient "key" (Some "staging") None) env_404
                    "getVersion" (JObj []) s0 = Some (r, s')) as (r & s' & Hrun).
  { vm_compute. by do 2 eexists. }
  destruct (@constructor_falls_back_to_default demo_host "key" "staging" None env_404
              "getVersion" (JObj []) s0 r s' ltac:(discriminate) eq_refl Hrun)
    as (_ & evs & Htr & Hevs).
  exists evs. rewrite Hrun. split; [exact Htr | exact Hevs].
Defined.

(** X16. After [setApiKey], every request of a later call carries the new
    key, in the [Authorization] header and in the metadata of the body; the
    endpoint and the options are as before. *)
Theorem setApiKey_takes_effect `{Host} (c : McpClient) (key : string) (env : Env)
    (methodId : string) (params : Json) (s : State) (r : Completion Json) (s' : State) :
  execute (setApiKey c key) env methodId params s = Some (r, s') →
  endpointId (setApiKey c key) = endpointId c
  ∧ options (setApiKey c key) = options c
  ∧ ∃ evs, trace s' = trace s ++ evs
      ∧ ∀ u a b, Fetch u a b ∈ evs →
          u = method_url c methodId
          ∧ a = "Bearer " +:+ key
          ∧ meta_apiKey (request_metadata b) = key.
Proof.
  intros (evs & Htr & Hevs)%execute_fetches. repeat split.
  exists evs. split; [done|]. intros u a b Hin. by apply Hevs.
Qed.

Lemma setApiKey_takes_effect_witness :
  ∃ evs,
    run_trace (@execute demo_host (setApiKey (client_with_attempts 3) "rotated") env_404
                 "getVersion" (JObj []) s0) = evs
    ∧ ∀ u a b, Fetch u a b ∈ evs → a = "Bearer rotated".
Proof.
  assert (∃ r s', @execute demo_host (setApiKey (client_with_attempts 3) "rotated") env_404
                    "getVersion" (JObj []) s0 = Some (r, s')) as (r & s' & Hrun).
  { vm_compute. by do 2 eexists. }
  destruct (@setApiKey_takes_effect demo_host _ _ _ _ _ _ _ _ Hrun)
    as (_ & _ & evs & Htr & Hevs).
  exists evs. rewrite Hrun. split; [exact Htr|].
  intros u a b Hin. by destruct (Hevs u a b Hin) as (_ & -> & _).
Defined.

(** * Properties of the callers of the client *)

(** X17. [AccountUtils.getBalance] validates the address before anything
    else: for an address that is not a public key it throws a plain
    [Error] and sends nothing. For a public key, every request it sends
    goes to the [getBalance] method with the parameters [{address}], and
    the error it may end with is never the unknown-method error:
    [getBalance] is a method of the registry. *)
Theorem getBalance_validates_then_calls `{Host} `{Engine} (c : McpClient) (env : Env)
    (address : string) (s : State) :
  (isPublicKey address = false →
     AccountUtils_getBalance c env address s
     = Some (Throw (new_Error ("Invalid Solana address: " +:+ address)), s))
  ∧ (isPublicKey address = true →
     ∃ r s', AccountUtils_getBalance c env address s = Some (r, s')
       ∧ (∃ evs, trace s' = trace s ++ evs
            ∧ ∀ u a b, Fetch u a b ∈ evs →
                u = method_url c "getBalance"
                ∧ params b = JObj [("address", JStr address)])
       ∧ (∀ e, r = Throw e → errorType e ≠ Some REQUEST)).
Proof.
  assert (∃ method, getMethod "getBalance" = Some method) as [method Hm] by (by eexists).
  unfold AccountUtils_getBalance. split; intros ->; cbn [negb]; [done|].
  destruct (execute c env "getBalance" (JObj [("address", JStr address)]) s)
    as [[r0 s']|] eqn:Hrun; unfold execute in Hrun; rewrite Hm in Hrun.
  2: { match type of Hrun with
       | execute_loop ?f ?c ?e ?m ?u ?rq ?a ?l ?st = None =>
           destruct (execute_loop_total c e f m u rq a l st ltac:(lia)) as [? Hsome]
       end.
       congruence. }
  assert (∃ evs, trace s' = trace s ++ evs
            ∧ ∀ u a b, Fetch u a b ∈ evs →
                u = method_url c "getBalance"
                ∧ params b = JObj [("address", JStr address)]) as Hsent.
  { destruct (execute_loop_carries _ _ _ _ _ _ _ _ _ _ _ Hrun) as (evs & Htr & Hevs).
    exists evs. split; [done|]. intros u a b Hin. rewrite Forall_forall in Hevs.
    destruct (Hevs _ Hin) as (-> & _ & ->). done. }
  destruct r0 as [result|e].
  - do 2 eexists. split; [reflexivity|]. split; [done|].
    intros e He. destruct result; cbn in He; try done. by injection He as <-.
  - do 2 eexists. split; [reflexivity|]. split; [done|].
    intros e' [= <-]. by eapply execute_loop_frame.
Qed.

Lemma getBalance_validates_then_calls_witness :
  @AccountUtils_getBalance demo_host demo_engine (client_with_attempts 3) env_404
    "not-an-address" s0
  = Some (Throw (new_Error "Invalid Solana address: not-an-address"), s0)
  ∧ ∃ r s', @AccountUtils_getBalance demo_host demo_engine (client_with_attempts 3) env_404
              system_program s0 = Some (r, s')
      ∧ ∀ e, r = Throw e → errorType e ≠ Some REQUEST.
Proof.
  destruct (@getBalance_validates_then_calls demo_host demo_engine (client_with_attempts 3)
              env_404 "not-an-address" s0) as [Hinvalid _].
  destruct (@getBalance_validates_then_calls demo_host demo_engine (client_with_attempts 3)
              env_404 system_program s0) as [_ Hvalid].
  split; [exact (Hinvalid eq_refl)|].
  destruct (Hvalid eq_refl) as (r & s' & Hrun & _ & Herr).
  exists r, s'. split; [exact Hrun | exact Herr].
Defined.

(** X18. [ProgramUtils.getProgramIdl] never reaches the gateway: the
    method id it asks for, [getProgramIdl], is not in the registry, so
    [execute] throws before any attempt and the [catch] turns that into
    [null]. For every program id that is a public key, whatever the
    transport, the result is [null] and nothing is sent. *)
Theorem getProgramIdl_is_always_null `{Host} `{Engine} (c : McpClient) (env : Env)
    (programId : string) (s : State) :
  isPublicKey programId = true →
  ProgramUtils_getProgramIdl c env programId s = Some (Return JNull, s).
Proof. intros Hvalid. unfold ProgramUtils_getProgramIdl. by rewrite Hvalid. Qed.

Lemma getProgramIdl_is_always_null_witness :
  @ProgramUtils_getProgramIdl demo_host demo_engine (client_with_attempts 3)
    (env_429_then_200 plain_response) system_program s0
  = Some (Return JNull, s0).
Proof.
  apply (@getProgramIdl_is_always_null demo_host demo_engine (client_with_attempts 3)
           (env_429_then_200 plain_response) system_program s0 eq_refl).
Defined.

(** X19. [BaseAgent.executeMcpQuery] passes a result on as it is, but it
    replaces every error of [execute] by a plain [Error]: what an agent
    throws is never an instance of [McpError], has no place in the
    taxonomy, carries no status code and is not retryable; only the text
    of the classified error is kept, after "Failed to execute MCP query: ",
    and the classified error itself goes to [console.error]. *)
Theorem executeMcpQuery_drops_the_class `{Host} (a : BaseAgent) (env : Env) (method : string)
    (args : Json) (s : State) (r : Completion Json) (s' : State)
    (logged : list (string * Thrown)) :
  executeMcpQuery a env method args s = Some (r, s', logged) →
  (∀ v, r = Return v →
     execute (agent_client a) env method args s = Some (Return v, s') ∧ logged = [])
  ∧ (∀ e, r = Throw e →
       ∃ e0, execute (agent_client a) env method args s = Some (Throw e0, s')
         ∧ instanceof e0 McpError = true
         ∧ e = new_Error ("Failed to execute MCP query: " +:+ error_toString e0)
         ∧ logged = [("MCP query error in " +:+ agent_type_string (agent_type a)
                        +:+ " agent:", e0)]
         ∧ instanceof e McpError = false
         ∧ errorType e = None
         ∧ statusCode (props e) = None
         ∧ isRetryableError e = false).
Proof.
  unfold executeMcpQuery.
  destruct (execute (agent_client a) env method args s) as [[[v|e0] s1]|] eqn:Hrun; [| |done].
  - intros [= <- <- <-]. split; [by intros ? [= <-]|done].
  - intros [= <- <- <-]. split; [done|]. intros e [= <-]. exists e0.
    assert (instanceof e0 McpError = true) as Hinst.
    { unfold execute in Hrun. destruct (getMethod method).
      - assert (∀ fuel attempt lastError st,
                  execute_loop fuel (agent_client a) env method
                    (createMethodUrl
                       (url (default getDefaultEndpoint
                               (getEndpoint (endpointId (agent_client a))))) method)
                    (formatMcpRequest env args (apiKey (agent_client a)) None None)
                    attempt lastError st = Some (Throw e0, s1) →
                  (∀ e1, lastError = Some e1 → instanceof (handleMcpError e1) McpError = true) →
                  instanceof e0 McpError = true) as Hloop.
        { induction fuel as [|fuel IH]; intros attempt lastError st Hl Hlast.
          - cbn in Hl. destruct (attempt <? _); [done|]. injection Hl as <- _.
            apply handleMcpError_instance.
          - rewrite execute_loop_unfold in Hl. destruct (attempt <? _).
            + destruct (try_attempt _ _ _ _ _ _ _) as [[v|e1] s2]; [done|].
              destruct (_ || _).
              * injection Hl as <- _. apply handleMcpError_instance.
              * eapply IH; [exact Hl|]. intros ? _. apply handleMcpError_instance.
            + injection Hl as <- _. apply handleMcpError_instance. }
        eapply Hloop; [exact Hrun|done].
      - by injection Hrun as <- _. }
    repeat split; done.
Qed.

Lemma executeMcpQuery_drops_the_class_witness :
  ∃ e s' logged,
    @executeMcpQuery demo_host demo_agent (env_timeout 0) "getHealth" (JObj []) s0
    = Some (Throw e, s', logged)
    ∧ e = new_Error
            "Failed to execute MCP query: McpTimeoutError: MCP request timed out after 30000ms"
    ∧ errorType e = None.
Proof.
  assert (∃ e s' logged,
            @executeMcpQuery demo_host demo_agent (env_timeout 0) "getHealth" (JObj []) s0
            = Some (Throw e, s', logged)
            ∧ e = new_Error
                    "Failed to execute MCP query: McpTimeoutError: MCP request timed out after 30000ms")
    as (e & s' & logged & Hrun & He).
  { vm_compute. by do 3 eexists. }
  exists e, s', logged. split; [exact Hrun|]. split; [exact He|].
  destruct (@executeMcpQuery_drops_the_class demo_host _ _ _ _ _ _ _ _ Hrun) as [_ Hthrow].
  destruct (Hthrow e eq_refl) as (e0 & _ & _ & _ & _ & _ & Hty & _). exact Hty.
Defined.

Lemma string_length_app (s1 s2 : string) :
  String.length (s1 +:+ s2) = (String.length s1 + String.length s2)%nat.
Proof.
  induction s1 as [|a s1 IH]; [done|].
  change (S (String.length (s1 +:+ s2)) = S (String.length s1 + String.length s2)).
  by rewrite IH.
Qed.

(** X20. For the same valid address, [AccountUtils.getExplorerUrl] and
    [ProgramUtils.getExplorerUrl] never give the same url: on the main
    network the account url has two slashes before the address, and on
    every other network it is the program url followed by a slash and the
    address once more, after the [cluster] query. *)
Theorem explorer_urls_disagree `{Engine} (address : string) (network : option string) :
  isPublicKey address = true →
  ∃ account_url program_url,
    AccountUtils_getExplorerUrl address network = Return account_url
    ∧ ProgramUtils_getExplorerUrl address network = Return program_url
    ∧ account_url ≠ program_url
    ∧ (default "mainnet-beta" network = "mainnet-beta" →
         account_url = "https://explorer.solana.com/address//" +:+ address
         ∧ program_url = "https://explorer.solana.com/address/" +:+ address)
    ∧ (default "mainnet-beta" network ≠ "mainnet-beta" →
         program_url = "https://explorer.solana.com/address/" +:+ address
                         +:+ "?cluster=" +:+ default "mainnet-beta" network
         ∧ account_url = program_url +:+ "/" +:+ address).
Proof.
  intros Hvalid. unfold AccountUtils_getExplorerUrl, ProgramUtils_getExplorerUrl.
  rewrite Hvalid. cbn [negb]. set (n := default "mainnet-beta" network).
  do 2 eexists. split; [reflexivity|]. split; [reflexivity|].
  destruct (String.eqb_spec n "mainnet-beta") as [Hn|Hn]; cbn [negb].
  - split; [|split; [|done]].
    + intros Heq%(f_equal String.length). rewrite !string_length_app in Heq. cbn in Heq. lia.
    + intros _. split; [done|]. cbn. by rewrite string_app_empty_r.
  - split; [|split; [done|]].
    + intros Heq%(f_equal String.length). rewrite !string_length_app in Heq. cbn in Heq. lia.
    + intros _. split; [done|]. cbn. by rewrite !string_app_assoc.
Qed.

Lemma explorer_urls_disagree_witness :
  ∃ account_url program_url,
    @AccountUtils_getExplorerUrl demo_engine system_program (Some "devnet")
    = Return account_url
    ∧ @ProgramUtils_getExplorerUrl demo_engine system_program (Some "devnet")
      = Return program_url
    ∧ account_url ≠ program_url.
Proof.
  destruct (@explorer_urls_disagree demo_engine system_program (Some "devnet") eq_refl)
    as (account_url & program_url & H1 & H2 & Hne & _).
  exists account_url, program_url. split; [exact H1|]. split; [exact H2 | exact Hne].
Defined.

(** * Properties of the agents *)

Lemma spread_empty_l (m : Settings) : spread ∅ m = m.
Proof. unfold spread. apply (right_id_L ∅ (∪)). Qed.

Lemma lookup_spread (a b : Settings) k :
  spread a b !! k = match b !! k with Some v => Some v | None => a !! k end.
Proof. unfold spread. rewrite lookup_union. by destruct (b !! k), (a !! k). Qed.

(** X21. Saving an agent and loading the saved state into another agent
    copies the options, the state and the custom flag, and copies the id and
    the name when they are not empty (an empty id or name leaves the one of
    the receiving agent). The type, the client and the network status of
    the receiving agent stay as they were. Loading an agent's own saved
    state changes nothing that [saveState] saves. *)
Theorem loadState_saveState (a b : BaseAgent) :
  let b' := loadState b (saveState a) in
  agent_id b' = (if String.eqb (agent_id a) "" then agent_id b else agent_id a)
  ∧ agent_name b' = (if String.eqb (agent_name a) "" then agent_name b else agent_name a)
  ∧ agent_options b' = agent_options a
  ∧ agent_state b' = agent_state a
  ∧ isCustom b' = isCustom a
  ∧ agent_type b' = agent_type b
  ∧ agent_client b' = agent_client b
  ∧ networkStatus b' = networkStatus b
  ∧ saveState (loadState a (saveState a)) = saveState a.
Proof.
  cbv zeta. unfold loadState, saveState. cbn.
  rewrite !spread_empty_l.
  destruct (String.eqb (agent_id a) ""), (String.eqb (agent_name a) ""); cbn;
    repeat split; by rewrite (right_id_L ∅ (∪)).
Qed.

(** X22. Every agent type has one configuration, with that type as its
    id. The options of an agent are merged key by key: an option given to
    [updateOptions] wins over an option given to the constructor, which
    wins over the default setting of the agent type; a key that none of
    them has is absent. *)
Theorem agent_options_merge (id name : string) (type : AgentType) (mcpClient : McpClient)
    (given : option Settings) (update : Settings) :
  ∃ config,
    getAgentConfig type = Some config
    ∧ config_id config = type
    ∧ config ∈ agentConfigs
    ∧ (∀ other, other ∈ agentConfigs → config_id other = type → other = config)
    ∧ ∀ k,
        getOptions (updateOptions (new_BaseAgent id name type mcpClient given) update) !! k
        = match update !! k with
          | Some v => Some v
          | None =>
              match default ∅ given !! k with
              | Some v => Some v
              | None => defaultSettings config !! k
              end
          end.
Proof.
  assert (∃ config, getAgentConfig type = Some config ∧ config_id config = type
                    ∧ config ∈ agentConfigs
                    ∧ ∀ other, other ∈ agentConfigs → config_id other = type → other = config)
    as (config & Hcfg & Hid & Hin & Huniq).
  { destruct type; eexists; (split; [reflexivity|]); (split; [reflexivity|]);
      (split; [unfold agentConfigs; rewrite !elem_of_cons; tauto|]);
      intros other Hother Hoid; unfold agentConfigs in Hother;
      repeat (apply elem_of_cons in Hother as [-> | Hother]; [done|]);
      by apply elem_of_nil in Hother. }
  exists config. repeat split; try done.
  intros k. unfold getOptions, updateOptions, new_BaseAgent. cbn [agent_options].
  rewrite Hcfg. cbn [fmap option_fmap option_map default].
  by rewrite spread_empty_l, !lookup_spread.
Qed.

(** * Properties of the formatting helpers *)

Lemma substring_all (s : string) : String.substring 0 (String.length s) s = s.
Proof. induction s as [|a s IH]; [done|]. cbn. by rewrite IH. Qed.

Lemma substring_length (n m : nat) (s : string) :
  (n + m ≤ String.length s)%nat → String.length (String.substring n m s) = m.
Proof.
  revert n m. induction s as [|a s IH]; intros [|n] [|m] Hlen; cbn in *; try lia.
  - rewrite (IH 0%nat m); lia.
  - rewrite (IH n 0%nat); lia.
  - rewrite (IH n (S m)); lia.
Qed.

(** X23. [formatAddress] returns an address of at most
    [prefixLength + suffixLength] characters as it is. A longer address
    becomes its first [prefixLength] characters, three dots and its last
    [suffixLength] characters, [prefixLength + 3 + suffixLength] characters
    in all; except that with [suffixLength = 0] the whole address follows
    the dots, so the result is longer than the address. *)
Theorem formatAddress_shape (address : string) (prefixLength suffixLength : option Z) :
  let len := Z.of_nat (String.length address) in
  let p := default 4 prefixLength in
  let s := default 4 suffixLength in
  (len ≤ p + s → formatAddress address prefixLength suffixLength = address)
  ∧ (p + s < len → 0 ≤ p → 0 < s →
       formatAddress address prefixLength suffixLength
       = String.substring 0 (Z.to_nat p) address +:+ "..."
           +:+ String.substring (Z.to_nat (len - s)) (Z.to_nat s) address
       ∧ Z.of_nat (String.length (formatAddress address prefixLength suffixLength))
         = p + 3 + s)
  ∧ (p < len → 0 ≤ p → s = 0 →
       formatAddress address prefixLength suffixLength
       = String.substring 0 (Z.to_nat p) address +:+ "..." +:+ address
       ∧ Z.of_nat (String.length (formatAddress address prefixLength suffixLength))
         = p + 3 + len).
Proof.
  cbv zeta. unfold formatAddress.
  set (len := Z.of_nat (String.length address)).
  set (p := default 4 prefixLength). set (s := default 4 suffixLength).
  destruct (String.eqb_spec address "") as [-> | Hne].
  { repeat split; cbn in *; lia. }
  assert (0 < len) as Hlen by (subst len; destruct address; [done|cbn; lia]).
  split; [|split].
  - intros Hle. by destruct (Z.leb_spec len (p + s)); [|lia].
  - intros Hlt Hp Hs. destruct (Z.leb_spec len (p + s)); [lia|].
    unfold slice. fold len.
    destruct (Z.ltb_spec p 0); [lia|]. destruct (Z.ltb_spec (- s) 0); [|lia].
    cbn [Z.ltb]. change (0 <? 0) with false. cbv iota.
    replace (Z.min 0 len) with 0 by lia.
    replace (Z.min p len - 0) with p by lia.
    replace (Z.max (len + - s) 0) with (len - s) by lia.
    replace (len - (len - s)) with s by lia.
    split; [done|].
    rewrite !string_length_app, !substring_length; cbn; lia.
  - intros Hlt Hp ->. destruct (Z.leb_spec len (p + 0)); [lia|].
    unfold slice. fold len.
    destruct (Z.ltb_spec p 0); [lia|].
    change (- 0 <? 0) with false. change (0 <? 0) with false. cbv iota.
    replace (Z.min 0 len) with 0 by lia.
    replace (Z.min p len - 0) with p by lia.
    replace (Z.min (- 0) len) with 0 by lia.
    replace (Z.to_nat (len - 0)) with (String.length address) by lia.
    change (Z.to_nat 0) with 0%nat. rewrite substring_all.
    split; [done|].
    rewrite !string_length_app, !substring_length; cbn; lia.
Qed.

Lemma formatAddress_shape_witness :
  formatAddress system_program None None = "1111...1111"
  ∧ formatAddress "abcdefghij" (Some 3) (Some 0) = "abc...abcdefghij"
  ∧ formatAddress "abc" None None = "abc".
Proof.
  destruct (formatAddress_shape system_program None None) as (_ & Hlong & _).
  destruct (formatAddress_shape "abcdefghij" (Some 3) (Some 0)) as (_ & _ & Hzero).
  destruct (formatAddress_shape "abc" None None) as (Hshort & _).
  split; [|split].
  - exact (proj1 (Hlong ltac:(cbn; lia) ltac:(cbn; lia) ltac:(cbn; lia))).
  - exact (proj1 (Hzero ltac:(cbn; lia) ltac:(cbn; lia) eq_refl)).
  - exact (Hshort ltac:(cbn; lia)).
Defined.

Lemma not_just_now (s rest : string) :
  (8 ≤ String.length rest)%nat → rest ≠ "just now" → s +:+ rest ≠ "just now".
Proof.
  intros Hlen Hne Heq. apply Hne.
  pose proof (f_equal String.length Heq) as Hl.
  rewrite string_length_app in Hl. cbn in Hl.
  destruct s; [done|]. cbn in Hl. lia.
Qed.

(** X24. [formatRelativeTime] answers "just now" exactly when fewer than
    6000 milliseconds have passed since the timestamp (read as milliseconds
    when above 10^12, as seconds otherwise); this includes every timestamp
    in the future, however far. *)
Theorem formatRelativeTime_just_now (now timestamp : Z) :
  let ms := if timestamp >? 1000000000000 then timestamp else timestamp * 1000 in
  formatRelativeTime now timestamp = "just now" ↔ now - ms < 6000.
Proof.
  cbv zeta. unfold formatRelativeTime.
  set (ms := if timestamp >? 1000000000000 then timestamp else timestamp * 1000).
  set (d := (now - ms) / 1000).
  assert (d ≤ 5 ↔ now - ms < 6000) as Hd.
  { subst d. pose proof (Z.div_mod (now - ms) 1000 ltac:(lia)).
    pose proof (Z.mod_pos_bound (now - ms) 1000 ltac:(lia)). lia. }
  rewrite <- Hd. clear Hd.
  destruct (Z.ltb_spec d 60) as [Hlt | Hge].
  - destruct (Z.leb_spec d 5); [done|]. split; [|intros; lia].
    intros Heq. by apply not_just_now in Heq; [|cbn; lia|].
  - split; [|intros; lia]. intros Heq. exfalso.
    repeat match type of Heq with
           | context [if ?b <? ?c then _ else _] => destruct (b <? c)
           end;
    match type of Heq with
    | context [if ?b =? 1 then _ else _] => destruct (b =? 1)
    end;
    (apply not_just_now in Heq; [done|vm_compute; lia|by vm_compute]).
Qed.

(** * Properties of [validateConfig] *)

Lemma validate_fields_app (config : Settings) (schema : list (string * Rules))
    (errors : list string) :
  validate_fields config schema errors = errors ++ validate_fields config schema [].
Proof.
  revert errors. induction schema as [|[field rules] rest IH]; intros errors; cbn.
  - by rewrite List.app_nil_r.
  - rewrite (IH (errors ++ _)), (IH (check_field _ _ _)). by rewrite List.app_assoc.
Qed.

Lemma check_field_ok (config : Settings) (field : string) (rules : Rules) :
  (check_field config field rules = [] ↔ field_ok config (field, rules) = true)
  ∧ (length (check_field config field rules) ≤ 2)%nat.
Proof.
  unfold check_field, field_ok. cbn [fst snd].
  destruct (config !! field) as [v|]; [|destruct (default false (required rules)); cbn; split; (done || lia)].
  destruct v; try (destruct (default false (required rules)); cbn; split; (done || lia));
    destruct (String.eqb _ _); cbn;
    destruct (validator rules) as [f|]; cbn; try destruct (f _); cbn; split; (done || lia).
Qed.

Lemma validate_fields_ok (config : Settings) (schema : list (string * Rules)) :
  (validate_fields config schema [] = [] ↔ forallb (field_ok config) schema = true)
  ∧ (length (validate_fields config schema []) ≤ 2 * length schema)%nat.
Proof.
  induction schema as [|[field rules] rest [IH1 IH2]]; [by cbn|].
  cbn [validate_fields forallb app]. rewrite validate_fields_app.
  destruct (check_field_ok config field rules) as [Hok Hlen].
  split.
  - rewrite andb_true_iff, <- IH1, <- Hok. split.
    + intros H. by apply List.app_eq_nil in H.
    + by intros [-> ->].
  - rewrite length_app. cbn [length]. lia.
Qed.

(** X25. For a schema none of whose field names is the name of a member
    inherited from [Object.prototype], [validateConfig] accepts a
    configuration exactly when every field of the schema passes: a missing
    or [null] field passes unless it is required, a present one passes when
    it has the type of the schema and its validator, if any, accepts it.
    Then it returns [valid = true] with no error, whatever [throwOnError]
    is. Otherwise there is at least one error and at most two per schema
    field, and the function throws an [Error] listing them when
    [throwOnError] is set, and returns them with [valid = false] when it is
    not. *)
Theorem validateConfig_outcomes (config : Settings) (schema : list (string * Rules))
    (throwOnError : option bool) :
  (∀ field, field ∈ schema.*1 → inherited field = false) →
  ∃ errors,
    (errors = [] ↔
       ∀ field rules, (field, rules) ∈ schema →
         match config !! field with
         | None | Some JNull => required rules ≠ Some true
         | Some v =>
             valueType v = type_name (rule_type rules)
             ∧ ∀ f, validator rules = Some f → f v = true
         end)
    ∧ (length errors ≤ 2 * length schema)%nat
    ∧ validateConfig config schema throwOnError
      = match errors with
        | [] => Return (true, [])
        | _ :: _ =>
            if default false throwOnError
            then Throw (new_Error ("Config validation failed: " +:+ String.concat ", " errors))
            else Return (false, errors)
        end.
Proof.
  intros _.
  exists (validate_fields config schema []).
  destruct (validate_fields_ok config schema) as [Hok Hlen].
  split; [|split; [done|]].
  - rewrite Hok, forallb_forall. split.
    + intros Hall field rules Hin%list_elem_of_In. apply Hall in Hin.
      unfold field_ok in Hin. cbn [fst snd] in Hin.
      destruct (config !! field) as [v|]; [|by destruct (required rules) as [[]|]].
      assert (String.eqb (valueType v) (type_name (rule_type rules))
              && match validator rules with Some f => f v | None => true end = true →
              valueType v = type_name (rule_type rules)
              ∧ ∀ f, validator rules = Some f → f v = true) as Hpresent.
      { intros [Hty%String.eqb_eq Hval]%andb_true_iff. split; [done|].
        intros f Hf. by rewrite Hf in Hval. }
      destruct v; try (by apply Hpresent). by destruct (required rules) as [[]|].
    + intros Hall [field rules] Hin%list_elem_of_In. specialize (Hall _ _ Hin).
      unfold field_ok. cbn [fst snd].
      destruct (config !! field) as [v|]; [|by destruct (required rules) as [[]|]].
      assert (valueType v = type_name (rule_type rules)
              ∧ (∀ f, validator rules = Some f → f v = true) →
              String.eqb (valueType v) (type_name (rule_type rules))
              && match validator rules with Some f => f v | None => true end = true)
        as Hpresent.
      { intros [Hty Hval]. apply andb_true_iff. split; [by apply String.eqb_eq|].
        destruct (validator rules) as [f|]; [by apply Hval|done]. }
      destruct v; try (by apply Hpresent). by destruct (required rules) as [[]|].
  - unfold validateConfig. destruct (validate_fields config schema []) as [|e errors]; [done|].
    cbn. by destruct (default false throwOnError).
Qed.

(** A required field that is missing, and a number out of the range of
    its validator. *)
Lemma validateConfig_outcomes_witness :
  validateConfig demo_config demo_schema (Some true) = Return (true, [])
  ∧ validateConfig (<["retryAttempts" := JNum 11]> ∅) demo_schema None
    = Return (false, ["Missing required field: defaultEndpoint";
                      "Field retryAttempts failed custom validation"]).
Proof.
  assert (∀ field, field ∈ demo_schema.*1 → inherited field = false) as Hdomain.
  { intros field Hin. cbn in Hin.
    repeat (apply elem_of_cons in Hin as [-> | Hin]; [reflexivity|]).
    by apply elem_of_nil in Hin. }
  destruct (validateConfig_outcomes demo_config demo_schema (Some true) Hdomain)
    as (errors & _ & _ & Hrun).
  split; [|reflexivity].
  destruct errors as [|e errors]; [exact Hrun|].
  vm_compute in Hrun. discriminate Hrun.
Defined.

Lemma check_field_insert (config : Settings) (k : string) (v : Json) (field : string)
    (rules : Rules) :
  field ≠ k → check_field (<[k := v]> config) field rules = check_field config field rules.
Proof. intros Hne. unfold check_field. by rewrite lookup_insert_ne. Qed.

(** X26. [validateConfig] looks only at the fields named in the schema: a
    property of the configuration that the schema does not name, whatever
    its value, changes neither the verdict nor the errors. Unknown keys are
    therefore never reported. *)
Theorem validateConfig_ignores_unknown_keys (config : Settings)
    (schema : list (string * Rules)) (throwOnError : option bool) (k : string) (v : Json) :
  k ∉ schema.*1 →
  validateConfig (<[k := v]> config) schema throwOnError
  = validateConfig config schema throwOnError.
Proof.
  intros Hk. unfold validateConfig.
  assert (∀ errors, validate_fields (<[k := v]> config) schema errors
                    = validate_fields config schema errors) as ->; [|done].
  induction schema as [|[field rules] rest IH]; intros errors; [done|].
  cbn in Hk. apply not_elem_of_cons in Hk as [Hne Hrest].
  cbn [validate_fields]. rewrite check_field_insert by done. by apply IH.
Qed.

Lemma validateConfig_ignores_unknown_keys_witness :
  validateConfig (<["colour" := JNum 7]> demo_config) demo_schema (Some true)
  = Return (true, []).
Proof.
  rewrite (validateConfig_ignores_unknown_keys demo_config demo_schema (Some true)
             "colour" (JNum 7)).
  - reflexivity.
  - intros Hin. cbn in Hin.
    repeat (apply elem_of_cons in Hin as [Hin | Hin]; [discriminate Hin|]).
    by apply elem_of_nil in Hin.
Defined.

(** * Properties of the batch size *)

Lemma ceil_div_spec (a b : Z) :
  0 < b → (ceil_div a b - 1) * b < a ∧ a ≤ ceil_div a b * b.
Proof.
  intros Hb. unfold ceil_div.
  pose proof (Z.div_mod (- a) b ltac:(lia)).
  pose proof (Z.mod_pos_bound (- a) b Hb). nia.
Qed.

Lemma ceil_div_unique (a b q : Z) :
  0 < b → (q - 1) * b < a → a ≤ q * b → ceil_div a b = q.
Proof. intros Hb Hlo Hhi. destruct (ceil_div_spec a b Hb). nia. Qed.

(** X27. For at least two transactions and a compute budget per
    transaction between 1 and 1_400_000 units, the batch size of
    [calculateOptimalBatchSize] is at least 1, at most the number of
    transactions and at most the number [floor(1_400_000 / units)] that fit
    the compute limit, so that a full batch stays within 1_400_000 units;
    and it needs no more batches than the largest batch size would. *)
Theorem batchSize_fits_the_compute_limit (transactionCount computeUnitsPerTx : Z) :
  2 ≤ transactionCount →
  1 ≤ computeUnitsPerTx ≤ 1400000 →
  let maxPerTx := 1400000 / computeUnitsPerTx in
  let batchSize :=
    calculateOptimalBatchSize_batchSize transactionCount (Some computeUnitsPerTx) in
  1 ≤ batchSize ≤ Z.min transactionCount maxPerTx
  ∧ batchSize * computeUnitsPerTx ≤ 1400000
  ∧ ceil_div transactionCount batchSize = ceil_div transactionCount maxPerTx.
Proof.
  intros Htc Hcu. cbv zeta. unfold calculateOptimalBatchSize_batchSize.
  change (default 200000 (Some computeUnitsPerTx)) with computeUnitsPerTx.
  set (m := 1400000 / computeUnitsPerTx).
  assert (1 ≤ m ∧ m * computeUnitsPerTx ≤ 1400000) as [Hm Hfit].
  { subst m. pose proof (Z.div_mod 1400000 computeUnitsPerTx ltac:(lia)).
    pose proof (Z.mod_pos_bound 1400000 computeUnitsPerTx ltac:(lia)). nia. }
  destruct (Z.leb_spec transactionCount 1); [lia|].
  destruct (Z.gtb_spec transactionCount m) as [Hgt | Hle].
  - set (k := ceil_div transactionCount m).
    destruct (ceil_div_spec transactionCount m ltac:(lia)) as [Hk1 Hk2]. fold k in Hk1, Hk2.
    assert (2 ≤ k) as Hk by nia.
    set (b := ceil_div transactionCount k).
    destruct (ceil_div_spec transactionCount k ltac:(lia)) as [Hb1 Hb2]. fold b in Hb1, Hb2.
    assert (1 ≤ b) as Hb by nia.
    assert (b ≤ m) as Hbm by nia.
    assert (b ≤ transactionCount) as Hbt by nia.
    split; [lia|]. split; [nia|].
    apply ceil_div_unique; [lia|nia|lia].
  - replace (Z.min transactionCount m) with transactionCount by lia.
    split; [lia|]. split; [nia|].
    rewrite (ceil_div_unique transactionCount transactionCount 1) by lia.
    symmetry. apply ceil_div_unique; lia.
Qed.

Lemma batchSize_fits_the_compute_limit_witness :
  calculateOptimalBatchSize_batchSize 10 None = 5
  ∧ 5 * 200000 ≤ 1400000
  ∧ ceil_div 10 5 = ceil_div 10 7.
Proof.
  destruct (batchSize_fits_the_compute_limit 10 200000 ltac:(lia) ltac:(lia))
    as (_ & Hfit & Hcount).
  split; [reflexivity|]. split; [exact Hfit | exact Hcount].
Defined.
